(** * Subtitle Loop: transcript index and A-B loop controller

    A shallow embedding of [src/content/transcript.ts] (timestamp parsing
    and formatting, reading the segments from the page, segment queries),
    of the video-control module ([setPlaybackRate] and the [LoopController]
    class), of the keyboard shortcut handler, and of the transcript panel's
    loop, save and rendering handlers.  JavaScript numbers are doubles,
    kept as their exact values: integral ones as [Z], playback times as [Q];
    the divisions of [formatTimestamp] are rounded as IEEE 754 rounds them,
    while the sums of the panel ([start + 5]) are exact.  JavaScript strings
    are lists of ASCII characters. *)

From Stdlib Require Import ZArith QArith Qround Qminmax Qabs Qpower Lia Lqa.
From Stdlib Require Import List Ascii String Bool Sorted.
Import ListNotations.

(** ** Strings *)

Definition str := list ascii.

(** String literal as a list of characters. *)
Definition s (x : string) : str := list_ascii_of_string x.

(** JavaScript white space, restricted to the ASCII range. *)
Definition is_ws (c : ascii) : bool :=
  let n := nat_of_ascii c in
  (n =? 32)%nat || (n =? 9)%nat || (n =? 10)%nat || (n =? 11)%nat
  || (n =? 12)%nat || (n =? 13)%nat.

Fixpoint drop_ws (l : str) : str :=
  match l with
  | c :: r => if is_ws c then drop_ws r else l
  | [] => []
  end.

(** [String.prototype.trim]. *)
Definition trim (l : str) : str := rev (drop_ws (rev (drop_ws l))).

Definition colon : ascii := ":"%char.

(** [String.prototype.split(':')]: an empty string gives [[""]]. *)
Fixpoint split_colon (l : str) : list str :=
  match l with
  | [] => [[]]
  | c :: r =>
      let rest := split_colon r in
      if Ascii.eqb c colon then [] :: rest
      else match rest with
           | h :: t => (c :: h) :: t
           | [] => [[c]]
           end
  end.

Definition is_digit (c : ascii) : bool :=
  let n := nat_of_ascii c in (48 <=? n)%nat && (n <=? 57)%nat.

Definition digit_val (c : ascii) : Z := Z.of_nat (nat_of_ascii c - 48).

Definition digit_char (d : Z) : ascii := ascii_of_nat (48 + Z.to_nat d).

(** Digits of the longest digit prefix, accumulated left to right. *)
Fixpoint digits_acc (l : str) (acc : Z) : Z :=
  match l with
  | c :: r => if is_digit c then digits_acc r (acc * 10 + digit_val c) else acc
  | [] => acc
  end.

(** [parseInt(p, 10)]: leading white space, an optional sign, then the
    longest run of decimal digits; [None] is [NaN] (no digit at all). *)
Definition parseInt (l : str) : option Z :=
  let l1 := drop_ws l in
  let '(sign, l2) :=
    match l1 with
    | c :: r => if Ascii.eqb c "-"%char then ((-1)%Z, r)
                else if Ascii.eqb c "+"%char then (1%Z, r)
                else (1%Z, l1)
    | [] => (1%Z, l1)
    end in
  match l2 with
  | c :: _ => if is_digit c then Some (sign * digits_acc l2 0) else None
  | [] => None
  end%Z.

Definition isNaN (o : option Z) : bool :=
  match o with None => true | Some _ => false end.

(** [parseTimestamp]: the warning on an invalid timestamp is only logged. *)
Definition parseTimestamp (timeStr : str) : Z :=
  let cleaned := trim timeStr in
  let parts := map parseInt (split_colon cleaned) in
  if existsb isNaN parts then 0%Z
  else match parts with
       | [Some m; Some sec] => (m * 60 + sec)%Z
       | [Some h; Some m; Some sec] => (h * 3600 + m * 60 + sec)%Z
       | _ => 0%Z
       end.

(** Decimal digits of a non-negative integer, with fuel. *)
Fixpoint dec_aux (fuel : nat) (n : Z) (acc : str) : str :=
  match fuel with
  | O => acc
  | S f =>
      let acc' := digit_char (n mod 10) :: acc in
      if (n <? 10)%Z then acc' else dec_aux f (n / 10) acc'
  end.

(** The decimal digits of [n >= 0]; a number below [2^(k+1)] has at most
    [k+1] of them. *)
Definition dec (n : Z) : str := dec_aux (S (Z.to_nat (Z.log2 n))) n [].

(** ** JavaScript numbers

    A JavaScript number is an IEEE 754 double.  Values are kept exact in
    [Q]; every arithmetic operation whose result need not be a double is
    followed by [round_double], the rounding of IEEE 754 (to nearest, ties
    to even, 53-bit significands, subnormals below [2^-1022]).  Overflow to
    [Infinity] is not reached by the code modelled here. *)

Definition Qltb (a b : Q) : bool := negb (Qle_bool b a).

Definition pow2 (k : Z) : Q := Qpower 2 k.

(** A binary exponent [e] with [2^e <= a < 2^(e+1)], for [a > 0]. *)
Definition ilog2 (a : Q) : Z :=
  let e0 := (Z.log2 (Qnum a) - Z.log2 (Zpos (Qden a)))%Z in
  if Qltb a (pow2 e0) then (e0 - 1)%Z else e0.

(** The integer nearest to [x], ties to the even one. *)
Definition round_half_even (x : Q) : Z :=
  let fl := Qfloor x in
  let fr := x - inject_Z fl in
  if Qltb fr (1 # 2) then fl
  else if Qltb (1 # 2) fr then (fl + 1)%Z
  else if Z.even fl then fl else (fl + 1)%Z.

(** The binary exponent of the last place of a double near [x]: 52 places
    below the leading one, and never below [2^-1074]. *)
Definition ulp_exp (x : Q) : Z := (Z.max (ilog2 (Qabs x)) (-1022) - 52)%Z.

(** The double nearest to [x]: its significand is rounded at [2^ulp_exp x]. *)
Definition round_double (x : Q) : Q :=
  if Qeq_bool x 0 then 0
  else
    let a := Qabs x in
    let q := ulp_exp x in
    let v := inject_Z (round_half_even (a / pow2 q)) * pow2 q in
    if Qltb x 0 then - v else v.

(** The division operator [/] on numbers. *)
Definition fdiv (a b : Q) : Q := round_double (a / b).

(** [Number.prototype.toString()] on an integral double [m > 2^53]: the
    shortest digit string [sd] with [sd * 10^e] rounding back to [m] (the
    closest one, then the even one), written with [e] zeros up to 21
    digits and in exponent form beyond. *)
Definition ndigits (m : Z) : Z := Z.of_nat (List.length (dec m)).

Definition round_trips (m sd e : Z) : bool :=
  Qeq_bool (round_double (inject_Z (sd * 10 ^ e))) (inject_Z m).

Definition closer (m : Z) (a b : Z * Z) : Z * Z :=
  let da := Z.abs (fst a * 10 ^ snd a - m) in
  let db := Z.abs (fst b * 10 ^ snd b - m) in
  if (da <? db)%Z then a else if (db <? da)%Z then b
  else if Z.even (fst a) then a else b.

(** The [k]-digit candidates: the two neighbours of [m] among the
    multiples of [10^e], for the two exponents [e] that give [k] digits. *)
Definition candidates (m k : Z) : list (Z * Z) :=
  let d := ndigits m in
  filter (fun c => (10 ^ (k - 1) <=? fst c)%Z && (fst c <? 10 ^ k)%Z
                   && round_trips m (fst c) (snd c))
    (flat_map (fun e => [(m / 10 ^ e, e); (m / 10 ^ e + 1, e)]%Z)
       [(d - k)%Z; (d - k + 1)%Z]).

Fixpoint shortest_aux (m k : Z) (fuel : nat) : option (Z * Z) :=
  match fuel with
  | O => None
  | S f =>
      match candidates m k with
      | [] => shortest_aux m (k + 1) f
      | c :: cs => Some (fold_left (closer m) cs c)
      end
  end.

Definition toString_big (m : Z) : str :=
  match shortest_aux m 1 (Z.to_nat (ndigits m)) with
  | None => dec m
  | Some (sd, e) =>
      let n := (e + ndigits sd)%Z in
      if (n <=? 21)%Z then dec sd ++ repeat "0"%char (Z.to_nat e)
      else match dec sd with
           | d :: rest =>
               d :: (match rest with [] => [] | _ => "."%char :: rest end)
                 ++ s "e+" ++ dec (n - 1)
           | [] => []
           end
  end.

(** Up to [2^53] every integer is a double and its shortest round-trip
    digits are its own decimal digits. *)
Definition toString_pos (m : Z) : str :=
  if (m <=? 2 ^ 53)%Z then dec m else toString_big m.

(** [Number.prototype.toString()] on an integral double. *)
Definition toString (n : Z) : str :=
  if (n <? 0)%Z then "-"%char :: toString_pos (- n) else toString_pos n.

(** [padStart(2, '0')]. *)
Definition padStart2 (l : str) : str :=
  repeat "0"%char (2 - List.length l) ++ l.

(** [formatTimestamp] on a finite double: [Math.floor] is [Qfloor]; [%] on
    integral doubles is exact, the truncating remainder [Z.rem]; the two
    divisions are rounded. *)
Definition formatTimestamp (seconds : Q) : str :=
  let totalSeconds := Qfloor seconds in
  let hours := Qfloor (fdiv (inject_Z totalSeconds) 3600) in
  let minutes := Qfloor (fdiv (inject_Z (Z.rem totalSeconds 3600)) 60) in
  let secs := Z.rem totalSeconds 60 in
  if (hours >? 0)%Z then
    toString hours ++ [colon] ++ padStart2 (toString minutes) ++ [colon]
      ++ padStart2 (toString secs)
  else toString minutes ++ [colon] ++ padStart2 (toString secs).

Definition no_ws (l : str) : bool := forallb (fun c => negb (is_ws c)) l.

(** ** Segment queries *)

(** [TranscriptSegment] without its DOM element reference. *)
Record TranscriptSegment := mkSeg {
  index : nat;
  startTime : Q;
  text : str
}.

(** [findSegmentAtTime]: the loop over [i] with [segments[i + 1]] looked up
    as the next segment, [Infinity] (here [None]) past the last one. *)
Fixpoint findSegmentAtTime (segments : list TranscriptSegment) (currentTime : Q)
  : option TranscriptSegment :=
  match segments with
  | [] => None
  | segment :: rest =>
      let segmentEnd :=
        match rest with
        | nextSegment :: _ => Some (startTime nextSegment)
        | [] => None
        end in
      let below_end :=
        match segmentEnd with Some e => Qltb currentTime e | None => true end in
      if Qle_bool (startTime segment) currentTime && below_end
      then Some segment
      else findSegmentAtTime rest currentTime
  end.

(** JavaScript [Array.prototype.join]. *)
Definition join (sep : str) (l : list str) : str :=
  match l with
  | [] => []
  | x :: r => x ++ List.concat (map (fun y => sep ++ y) r)
  end.

(** [getTextForRange]. *)
Definition getTextForRange (segments : list TranscriptSegment) (st en : Q) : str :=
  let relevantSegments :=
    filter (fun seg => Qle_bool st (startTime seg) && Qltb (startTime seg) en)
      segments in
  join [" "%char] (map text relevantSegments).

Definition seg_q (t : Q) (x : string) (i : nat) : TranscriptSegment :=
  mkSeg i t (s x).

Definition sample_segments : list TranscriptSegment :=
  [seg_q 0 "a" 0; seg_q 10 "b" 1; seg_q 20 "c" 2].

(** Strictly ascending start times, and the test of the source's loop. *)

Definition seg_lt (a b : TranscriptSegment) : Prop := startTime a < startTime b.

(** The condition of the source's [if], at index [i] of [segments]. *)
Definition in_slot (segments : list TranscriptSegment) (i : nat)
    (seg : TranscriptSegment) (t : Q) : Prop :=
  nth_error segments i = Some seg /\ startTime seg <= t /\
  (forall n, nth_error segments (S i) = Some n -> t < startTime n).

(** *** [getTextForRange] against the words of the specification *)

(** Spec side: the texts of the segments with [start <= startTime < end],
    in list order. *)
Fixpoint texts_in_range (segments : list TranscriptSegment) (st en : Q) : list str :=
  match segments with
  | [] => []
  | x :: r =>
      match Qlt_le_dec (startTime x) st, Qlt_le_dec (startTime x) en with
      | right _, left _ => text x :: texts_in_range r st en
      | _, _ => texts_in_range r st en
      end
  end.

(** Spec side: texts separated by a single space. *)
Fixpoint join_spaced (l : list str) : str :=
  match l with
  | [] => []
  | [x] => x
  | x :: r => x ++ " "%char :: join_spaced r
  end.

(** ** The A-B loop controller *)

(** Snapshot passed to the state-change callback. *)
Record LoopState := mkLoopState {
  ls_isActive : bool;
  ls_startTime : option Q;
  ls_endTime : option Q
}.

Module LoopController.

(** The private fields of a [LoopController] ([onStateChange] is whether a
    callback is registered), together with what the host page records of
    it: the live interval timers, the next timer id, the seeks issued on the
    video element and the snapshots delivered to the callback. *)
Record t := mk {
  startTime : option Q;
  endTime : option Q;
  isActive : bool;
  intervalId : option nat;
  onStateChange : bool;
  timers : list nat;
  nextTimer : nat;
  seeks : list Q;
  notes : list LoopState
}.

(** [new LoopController(onStateChange?)]. *)
Definition init (subscribed : bool) : t :=
  mk None None false None subscribed [] 0 [] [].

Definition set_bounds (st en : option Q) (c : t) : t :=
  mk st en (isActive c) (intervalId c) (onStateChange c) (timers c)
     (nextTimer c) (seeks c) (notes c).

Definition set_active (b : bool) (c : t) : t :=
  mk (startTime c) (endTime c) b (intervalId c) (onStateChange c) (timers c)
     (nextTimer c) (seeks c) (notes c).

(** [seekTo(seconds)] on the host video element. *)
Definition seekTo (q : Q) (c : t) : t :=
  mk (startTime c) (endTime c) (isActive c) (intervalId c) (onStateChange c)
     (timers c) (nextTimer c) (seeks c ++ [q]) (notes c).

Definition getState (c : t) : LoopState :=
  mkLoopState (isActive c) (startTime c) (endTime c).

Definition notifyStateChange (c : t) : t :=
  if onStateChange c then
    mk (startTime c) (endTime c) (isActive c) (intervalId c) (onStateChange c)
       (timers c) (nextTimer c) (seeks c) (notes c ++ [getState c])
  else c.

(** [startMonitoring]: [window.setInterval] registers a fresh timer. *)
Definition startMonitoring (c : t) : t :=
  match intervalId c with
  | Some _ => c
  | None =>
      let id := nextTimer c in
      mk (startTime c) (endTime c) (isActive c) (Some id) (onStateChange c)
         (timers c ++ [id]) (S id) (seeks c) (notes c)
  end.

(** [stopMonitoring]: [clearInterval] removes the timer. *)
Definition stopMonitoring (c : t) : t :=
  match intervalId c with
  | Some i =>
      mk (startTime c) (endTime c) (isActive c) None (onStateChange c)
         (remove Nat.eq_dec i (timers c)) (nextTimer c) (seeks c) (notes c)
  | None => c
  end.

(** The body of the interval callback, at playback position [currentTime]
    ([getCurrentTime()]). *)
Definition tick (currentTime : Q) (c : t) : t :=
  if negb (isActive c) then c
  else match startTime c, endTime c with
       | Some st, Some en => if Qle_bool en currentTime then seekTo st c else c
       | _, _ => c
       end.

Definition activate (c : t) : t :=
  match startTime c, endTime c with
  | Some st, Some _ =>
      let c1 := set_active true c in
      let c2 := startMonitoring c1 in
      let c3 := seekTo st c2 in
      notifyStateChange c3
  | _, _ => c
  end.

Definition setStart (time : Q) (c : t) : t :=
  notifyStateChange (set_bounds (Some time) (endTime c) c).

(** [setEnd]: without a start it only logs a warning. *)
Definition setEnd (time : Q) (c : t) : t :=
  match startTime c with
  | None => c
  | Some st => activate (set_bounds (Some (Qmin st time)) (Some (Qmax st time)) c)
  end.

Definition setLoop (a b : Q) (c : t) : t :=
  activate (set_bounds (Some (Qmin a b)) (Some (Qmax a b)) c).

Definition clear (c : t) : t :=
  let c1 := stopMonitoring c in
  notifyStateChange (set_active false (set_bounds None None c1)).

Definition destroy (c : t) : t :=
  let c1 := stopMonitoring c in
  mk (startTime c1) (endTime c1) (isActive c1) (intervalId c1) false
     (timers c1) (nextTimer c1) (seeks c1) (notes c1).

(** [isSettingStart]: a start point without an end, and not looping. *)
Definition isSettingStart (c : t) : bool :=
  match startTime c, endTime c with
  | Some _, None => negb (isActive c)
  | _, _ => false
  end.

(** Method calls, and a live interval timer [id] firing at a position. *)
Inductive op :=
| OSetStart (time : Q)
| OSetEnd (time : Q)
| OSetLoop (a b : Q)
| OClear
| ODestroy
| OFire (id : nat) (currentTime : Q).

Definition step (c : t) (o : op) : t :=
  match o with
  | OSetStart time => setStart time c
  | OSetEnd time => setEnd time c
  | OSetLoop a b => setLoop a b c
  | OClear => clear c
  | ODestroy => destroy c
  | OFire id pos => if existsb (Nat.eqb id) (timers c) then tick pos c else c
  end.

Definition run (ops : list op) (c : t) : t := fold_left step ops c.

(** *** The reachable states *)

Definition reachable (c : t) : Prop := exists b ops, c = run ops (init b).

(** Invariant of the reachable states: the loop is active exactly when both
    bounds are set, an end bound only exists with a start bound, and the
    live timers are the one recorded in [intervalId], if any. *)
Definition inv (c : t) : Prop :=
  (isActive c = true <-> startTime c <> None /\ endTime c <> None) /\
  (endTime c <> None -> startTime c <> None) /\
  timers c = match intervalId c with Some i => [i] | None => [] end.

Definition core (c : t) :=
  (startTime c, endTime c, isActive c, intervalId c, timers c).

Definition is_activation (o : op) : bool :=
  match o with OSetEnd _ | OSetLoop _ _ => true | _ => false end.

Definition bounds_ordered (c : t) : Prop :=
  match startTime c, endTime c with
  | Some st, Some en => st < en
  | _, _ => True
  end.

(** A live timer only exists while the loop is active. *)
Definition timer_active (c : t) : Prop :=
  intervalId c = None \/ isActive c = true.

End LoopController.

(** ** The host video element *)

(** The two properties of the [<video>] element the module reads and
    writes; [getVideoPlayer()] is [None] when no player is on the page. *)
Record Video := mkVideo {
  currentTime : Q;
  playbackRate : Q
}.

(** [getPlaybackRate]: [video?.playbackRate ?? 1.0]. *)
Definition getPlaybackRate (video : option Video) : Q :=
  match video with Some v => playbackRate v | None => 1 end.

(** [setPlaybackRate(rate)]: the returned flag and the element afterwards. *)
Definition setPlaybackRate (video : option Video) (rate : Q)
  : bool * option Video :=
  match video with
  | None => (false, None)
  | Some v =>
      let clampedRate := Qmax (1 # 4) (Qmin 2 rate) in
      (true, Some (mkVideo (currentTime v) clampedRate))
  end.

(** ** Keyboard shortcuts *)

(** [String.prototype.toLowerCase], on the ASCII range. *)
Definition lower_ascii (c : ascii) : ascii :=
  let n := nat_of_ascii c in
  if (65 <=? n)%nat && (n <=? 90)%nat then ascii_of_nat (n + 32) else c.

Definition toLowerCase (l : str) : str := map lower_ascii l.

(** [===] on strings. *)
Definition str_eqb (a b : str) : bool :=
  if list_eq_dec ascii_dec a b then true else false.

(** The keys of [ShortcutHandlers]. *)
Inductive action :=
| setLoopStart
| setLoopEnd
| saveSegment
| clearLoop
| refreshSubtitles.

Record Shortcut := mkShortcut {
  sc_key : str;
  alt : bool;
  ctrl : bool;
  shift : bool
}.

(** [KEYBOARD_SHORTCUTS], in the order [Object.entries] lists it. *)
Definition KEYBOARD_SHORTCUTS : list (action * Shortcut) :=
  [(setLoopStart, mkShortcut (s "[") true false false);
   (setLoopEnd, mkShortcut (s "]") true false false);
   (saveSegment, mkShortcut (s "s") true false false);
   (clearLoop, mkShortcut (s "c") true false false);
   (refreshSubtitles, mkShortcut (s "r") true false false)].

(** The event target: its tag name, [isContentEditable] and whether it has
    a [contenteditable] attribute. *)
Record Element := mkElement {
  tagName : str;
  isContentEditable : bool;
  has_contenteditable : bool
}.

Record KeyboardEvent := mkKeyboardEvent {
  key : str;
  altKey : bool;
  ctrlKey : bool;
  shiftKey : bool;
  metaKey : bool;
  target : Element
}.

Definition matchesShortcut (event : KeyboardEvent) (shortcut : Shortcut) : bool :=
  str_eqb (toLowerCase (key event)) (toLowerCase (sc_key shortcut)) &&
  Bool.eqb (altKey event) (alt shortcut) &&
  Bool.eqb (ctrlKey event) (ctrl shortcut) &&
  Bool.eqb (shiftKey event) (shift shortcut).

Definition isInputElement (element : Element) : bool :=
  let tagName := toLowerCase (tagName element) in
  str_eqb tagName (s "input") || str_eqb tagName (s "textarea") ||
  str_eqb tagName (s "select") || isContentEditable element ||
  has_contenteditable element.

(** The [for ... of] loop with its [break]: the first matching entry. *)
Fixpoint first_match (event : KeyboardEvent) (l : list (action * Shortcut))
  : option action :=
  match l with
  | [] => None
  | (a, shortcut) :: r =>
      if matchesShortcut event shortcut then Some a else first_match event r
  end.

(** [handleKeydown]: the handler it runs, if any ([preventDefault] and
    [stopPropagation] are called exactly when one runs; every key of
    [ShortcutHandlers] has a handler). *)
Definition handleKeydown (isEnabled : bool) (event : KeyboardEvent)
  : option action :=
  if negb isEnabled then None
  else if isInputElement (target event) then None
  else first_match event KEYBOARD_SHORTCUTS.

(** ** Reading the transcript from the page *)

(** A segment element: the result of each [querySelector] (the timestamp
    and the text child) with its [textContent], which may be [null]. *)
Record SegmentElement := mkSegmentElement {
  timestampEl : option (option str);
  textEl : option (option str)
}.

(** [x?.trim() || d]: [undefined] and the empty string give [d]. *)
Definition trim_or (content : option str) (d : str) : str :=
  match option_map trim content with
  | Some ((_ :: _) as x) => x
  | _ => d
  end.

(** The [forEach] over the elements with their position [index]; a
    malformed element is skipped (with a warning). *)
Fixpoint extract_from (index : nat) (els : list SegmentElement)
  : list TranscriptSegment :=
  match els with
  | [] => []
  | element :: rest =>
      match timestampEl element, textEl element with
      | Some ts, Some tx =>
          let timeStr := trim_or ts (s "0:00") in
          let text := trim_or tx [] in
          mkSeg index (inject_Z (parseTimestamp timeStr)) text
            :: extract_from (S index) rest
      | _, _ => extract_from (S index) rest
      end
  end.

Definition extractTranscriptSegments (els : list SegmentElement)
  : list TranscriptSegment :=
  extract_from 0 els.

Definition well_formed (e : SegmentElement) : bool :=
  match timestampEl e, textEl e with Some _, Some _ => true | _, _ => false end.

(** Segments in increasing [index] order. *)
Definition idx_lt (a b : TranscriptSegment) : Prop := (index a < index b)%nat.

(** ** The transcript panel *)

Module Panel.

(** [seekTo(time)] of the panel acts on the same video element as the
    controller's own seeks: both are recorded in [LoopController.seeks]. *)

(** [handleLoopClick] on the button whose [data-index] is [index] (the
    rendered position of the segment). *)
Definition handleLoopClick (segments : list TranscriptSegment) (index : Z)
    (c : LoopController.t) : LoopController.t :=
  if (index <? 0)%Z || (index >=? Z.of_nat (List.length segments))%Z then c
  else
    match nth_error segments (Z.to_nat index) with
    | None => c
    | Some segment =>
        let nextSegment := nth_error segments (S (Z.to_nat index)) in
        let time := startTime segment in
        let state := LoopController.getState c in
        if negb (ls_isActive state) &&
           match ls_startTime state with None => true | Some _ => false end
        then LoopController.seekTo time (LoopController.setStart time c)
        else if LoopController.isSettingStart c then
          if match ls_startTime state with
             | Some st => Qeq_bool st time
             | None => false
             end
          then
            let endTime :=
              match nextSegment with Some n => startTime n | None => time + 5 end in
            LoopController.setLoop time endTime c
          else LoopController.setEnd time c
        else
          LoopController.seekTo time
            (LoopController.setStart time (LoopController.clear c))
    end.

(** [handleSaveClick] up to the save dialog: the start, end and text it
    passes, [None] where it returns early ([hasVideoInfo] is whether
    [getVideoInfo()] found the video). *)
Definition handleSaveClick (segments : list TranscriptSegment) (index : Z)
    (hasVideoInfo : bool) (loopState : LoopState) : option (Q * Q * str) :=
  if (index <? 0)%Z || (index >=? Z.of_nat (List.length segments))%Z then None
  else
    match nth_error segments (Z.to_nat index) with
    | None => None
    | Some segment =>
        let nextSegment := nth_error segments (S (Z.to_nat index)) in
        if negb hasVideoInfo then None
        else
          match ls_isActive loopState, ls_startTime loopState,
                ls_endTime loopState with
          | true, Some st, Some en => Some (st, en, getTextForRange segments st en)
          | _, _, _ =>
              Some (startTime segment,
                    match nextSegment with
                    | Some n => startTime n
                    | None => startTime segment + 5
                    end,
                    text segment)
          end
    end.

(** [handleSaveShortcut] up to [savePhrase]: the start, end and text of the
    saved payload; [savedStarts] are the start times of the phrases already
    saved for the video. *)
Definition handleSaveShortcut (segments : list TranscriptSegment)
    (savedStarts : list Q) (hasVideoInfo : bool) (currentTime : Q)
  : option (Q * Q * str) :=
  match findSegmentAtTime segments currentTime with
  | None => None
  | Some currentSegment =>
      if existsb (fun p => Qeq_bool p (startTime currentSegment)) savedStarts
      then None
      else if negb hasVideoInfo then None
      else
        let nextSegment := nth_error segments (S (index currentSegment)) in
        let endTime :=
          match nextSegment with
          | Some n => startTime n
          | None => startTime currentSegment + 5
          end in
        Some (startTime currentSegment, endTime, text currentSegment)
  end.

(** [handleLoopStartShortcut] at playback position [currentTime]. *)
Definition handleLoopStartShortcut (segments : list TranscriptSegment)
    (currentTime : Q) (c : LoopController.t) : LoopController.t :=
  match findSegmentAtTime segments currentTime with
  | None => c
  | Some currentSegment => LoopController.setStart (startTime currentSegment) c
  end.

(** The classes [renderSegments] gives each segment: in the loop, loop start,
    loop end. *)
Fixpoint renderSegments_flags (loopState : LoopState)
    (segments : list TranscriptSegment) : list (bool * bool * bool) :=
  match segments with
  | [] => []
  | segment :: rest =>
      let segmentEnd :=
        match rest with
        | nextSegment :: _ => startTime nextSegment
        | [] => startTime segment + 5
        end in
      let flags :=
        match ls_startTime loopState, ls_endTime loopState with
        | Some st, Some en =>
            (Qle_bool st (startTime segment) && Qltb (startTime segment) en,
             Qeq_bool (startTime segment) st,
             Qltb en segmentEnd && Qltb (startTime segment) en)
        | _, _ => (false, false, false)
        end in
      flags :: renderSegments_flags loopState rest
  end.

Definition count_true (l : list bool) : nat := List.length (filter (fun b => b) l).

(** The three counters of [renderSegments]. *)
Definition segmentsWithLoopClass (loopState : LoopState)
    (segments : list TranscriptSegment) : nat :=
  count_true (map (fun f => fst (fst f)) (renderSegments_flags loopState segments)).

Definition segmentsWithStartClass (loopState : LoopState)
    (segments : list TranscriptSegment) : nat :=
  count_true (map (fun f => snd (fst f)) (renderSegments_flags loopState segments)).

Definition segmentsWithEndClass (loopState : LoopState)
    (segments : list TranscriptSegment) : nat :=
  count_true (map (fun f => snd f) (renderSegments_flags loopState segments)).

End Panel.

Example ex_parse1 : parseTimestamp (s "1:23") = 83%Z. Proof. reflexivity. Qed.
Example ex_parse2 : parseTimestamp (s "1:02:30") = 3750%Z. Proof. reflexivity. Qed.
Example ex_parse3 : parseTimestamp (s "bad") = 0%Z. Proof. reflexivity. Qed.
Example ex_fmt1 : formatTimestamp 83 = s "1:23". Proof. reflexivity. Qed.
Example ex_fmt2 : formatTimestamp 3750 = s "1:02:30". Proof. reflexivity. Qed.
Example ex_fmt3 : formatTimestamp 3600 = s "1:00:00". Proof. reflexivity. Qed.
Example ex_fmt4 : formatTimestamp 5 = s "0:05". Proof. reflexivity. Qed.
Example ex_parse4 : parseTimestamp (s " -1:00 ") = (-60)%Z. Proof. reflexivity. Qed.

(** ** Lemmas on double rounding *)

Lemma pow2_pos (k : Z) : 0 < pow2 k.
Proof. apply Qpower_0_lt. reflexivity. Qed.

Lemma pow2_plus (a b : Z) : pow2 (a + b) == pow2 a * pow2 b.
Proof. unfold pow2. apply Qpower_plus. discriminate. Qed.

Lemma pow2_le_mono (a b : Z) : (a <= b)%Z -> pow2 a <= pow2 b.
Proof. intros H. apply Qpower_le_compat_l; [exact H | discriminate]. Qed.

Lemma pow2_lt_inv (a b : Z) : pow2 a < pow2 b -> (a < b)%Z.
Proof. intros H. apply (Qpower_lt_compat_l_inv 2); [exact H | reflexivity]. Qed.

Lemma pow2_Z (k : Z) : (0 <= k)%Z -> pow2 k == inject_Z (2 ^ k).
Proof. intros H. unfold pow2. rewrite (Zpower_Qpower 2 k H). reflexivity. Qed.

Lemma Qltb_iff (a b : Q) : Qltb a b = true <-> a < b.
Proof.
  unfold Qltb. rewrite negb_true_iff. split.
  - intros H. apply Qnot_le_lt. intros Hle. apply Qle_bool_iff in Hle. congruence.
  - intros H. destruct (Qle_bool b a) eqn:E; [| reflexivity].
    apply Qle_bool_iff in E. exfalso. apply (Qlt_not_le a b H E).
Qed.

Lemma Qltb_false (a b : Q) : Qltb a b = false <-> b <= a.
Proof.
  unfold Qltb. rewrite negb_false_iff. apply Qle_bool_iff.
Qed.

(** [ilog2 a] is a lower binary exponent of a positive [a]. *)
Lemma ilog2_le (a : Q) : 0 < a -> pow2 (ilog2 a) <= a.
Proof.
  intros Ha. unfold ilog2.
  set (e0 := (Z.log2 (Qnum a) - Z.log2 (Zpos (Qden a)))%Z).
  destruct (Qltb a (pow2 e0)) eqn:E; [| apply Qltb_false in E; exact E].
  destruct a as [p d]. cbn [Qnum Qden] in *.
  assert (Hp : (0 < p)%Z).
  { unfold Qlt in Ha. cbn in Ha. lia. }
  destruct (Z.log2_spec p Hp) as [Hp1 _].
  destruct (Z.log2_spec (Zpos d) ltac:(lia)) as [_ Hd2].
  set (lp := Z.log2 p) in *. set (ld := Z.log2 (Zpos d)) in *.
  assert (Hlp : (0 <= lp)%Z) by apply Z.log2_nonneg.
  assert (Hld : (0 <= ld)%Z) by apply Z.log2_nonneg.
  rewrite Qmake_Qdiv. apply Qle_shift_div_l; [unfold Qlt; cbn; lia |].
  assert (Heq : pow2 (e0 - 1) * pow2 (Z.succ ld) == pow2 lp).
  { rewrite <- pow2_plus. unfold e0. f_equiv. lia. }
  apply (Qle_trans _ (pow2 (e0 - 1) * pow2 (Z.succ ld))).
  - apply Qmult_le_l; [apply pow2_pos |].
    rewrite (pow2_Z (Z.succ ld)) by lia. rewrite <- Zle_Qle. lia.
  - rewrite Heq, (pow2_Z lp) by lia. rewrite <- Zle_Qle. exact Hp1.
Qed.

Lemma ilog2_lt (a : Q) (K : Z) : 0 < a -> a < pow2 K -> (ilog2 a < K)%Z.
Proof.
  intros Ha HK. apply pow2_lt_inv. exact (Qle_lt_trans _ _ _ (ilog2_le a Ha) HK).
Qed.

Lemma inject_Z_succ (z : Z) : inject_Z (z + 1) == inject_Z z + 1.
Proof. rewrite inject_Z_plus. reflexivity. Qed.

Lemma round_half_even_err (y : Q) :
  - (1 # 2) <= inject_Z (round_half_even y) - y <= 1 # 2.
Proof.
  assert (H1 := Qfloor_le y). assert (H2 := Qlt_floor y).
  rewrite inject_Z_succ in H2.
  unfold round_half_even.
  destruct (Qltb (y - inject_Z (Qfloor y)) (1 # 2)) eqn:E1.
  - apply Qltb_iff in E1. split; lra.
  - apply Qltb_false in E1.
    destruct (Qltb (1 # 2) (y - inject_Z (Qfloor y))) eqn:E2.
    + apply Qltb_iff in E2. rewrite inject_Z_succ. split; lra.
    + apply Qltb_false in E2.
      destruct (Z.even (Qfloor y)); [| rewrite inject_Z_succ];
        split; lra.
Qed.

Lemma round_half_even_int (y : Q) (z : Z) : y == inject_Z z -> round_half_even y = z.
Proof.
  intros H. unfold round_half_even.
  assert (Hf : Qfloor y = z) by (rewrite H; apply Qfloor_Z).
  rewrite Hf.
  replace (Qltb (y - inject_Z z) (1 # 2)) with true; [reflexivity |].
  symmetry. apply Qltb_iff. rewrite H. lra.
Qed.

Lemma round_double_pos (x : Q) : 0 < x ->
  round_double x =
    inject_Z (round_half_even (Qabs x / pow2 (ulp_exp x))) * pow2 (ulp_exp x).
Proof.
  intros Hx. unfold round_double.
  replace (Qeq_bool x 0) with false.
  2:{ symmetry. apply not_true_iff_false. intros H. apply Qeq_bool_iff in H. lra. }
  replace (Qltb x 0) with false; [reflexivity |].
  symmetry. apply Qltb_false. lra.
Qed.

Lemma round_double_err (x : Q) : 0 < x ->
  - ((1 # 2) * pow2 (ulp_exp x)) <= round_double x - x <= (1 # 2) * pow2 (ulp_exp x).
Proof.
  intros Hx. rewrite (round_double_pos x Hx).
  set (P := pow2 (ulp_exp x)). assert (HP : 0 < P) by apply pow2_pos.
  assert (Ha : Qabs x == x) by (apply Qabs_pos; lra).
  destruct (round_half_even_err (Qabs x / P)) as [Hl Hh].
  set (r := inject_Z (round_half_even (Qabs x / P))) in *.
  assert (Hx' : x == Qabs x / P * P) by (rewrite Ha; field; lra).
  assert (Heq : r * P - x == (r - Qabs x / P) * P) by (rewrite Hx' at 1; ring).
  rewrite Heq. split.
  - apply (Qle_trans _ (- (1 # 2) * P)); [apply Qle_lteq; right; ring |].
    apply Qmult_le_compat_r; lra.
  - apply Qmult_le_compat_r; lra.
Qed.

(** Integers below [2^53] are doubles: rounding leaves them unchanged. *)
Lemma round_double_int (x : Q) (n : Z) :
  x == inject_Z n -> (0 <= n < 2 ^ 53)%Z -> round_double x == inject_Z n.
Proof.
  intros Hx Hn.
  destruct (Z.eq_dec n 0) as [-> | Hn0].
  { unfold round_double. replace (Qeq_bool x 0) with true; [reflexivity |].
    symmetry. apply Qeq_bool_iff. exact Hx. }
  assert (Hpos : 0 < x) by (rewrite Hx; change 0 with (inject_Z 0); rewrite <- Zlt_Qlt; lia).
  rewrite (round_double_pos x Hpos).
  assert (He : (ilog2 (Qabs x) < 53)%Z).
  { apply ilog2_lt; [rewrite Qabs_pos; lra |].
    rewrite Qabs_pos by lra. rewrite pow2_Z by lia. rewrite Hx.
    rewrite <- Zlt_Qlt. lia. }
  set (q := ulp_exp x).
  assert (Hq : (q <= 0)%Z) by (unfold q, ulp_exp; lia).
  assert (HP : pow2 q * inject_Z (2 ^ (- q)) == 1).
  { rewrite <- pow2_Z by lia. rewrite <- pow2_plus.
    replace (q + - q)%Z with 0%Z by lia. reflexivity. }
  assert (H0 := pow2_pos q).
  assert (HI : inject_Z (2 ^ (- q)) == / pow2 q).
  { apply (Qmult_inj_l _ _ (pow2 q)); [lra |].
    rewrite HP, Qmult_inv_r; [reflexivity | lra]. }
  assert (Hy : Qabs x / pow2 q == inject_Z (n * 2 ^ (- q))).
  { rewrite Qabs_pos by lra. rewrite Hx, inject_Z_mult, HI. reflexivity. }
  rewrite (round_half_even_int _ _ Hy), inject_Z_mult, HI. field. lra.
Qed.

Lemma Qfloor_between (v : Q) (n : Z) :
  inject_Z n <= v -> v < inject_Z (n + 1) -> Qfloor v = n.
Proof.
  intros H1 H2.
  assert (Ha := Qfloor_resp_le _ _ H1). rewrite Qfloor_Z in Ha.
  assert (Hb : inject_Z (Qfloor v) < inject_Z (n + 1))
    by exact (Qle_lt_trans _ _ _ (Qfloor_le v) H2).
  rewrite <- Zlt_Qlt in Hb. lia.
Qed.

(** [Math.floor(T / d)] computed in double precision is the integer quotient
    when the quotient is below [2^42] and [d < 4096]. *)
Lemma floor_div_double (T d : Z) :
  (0 <= T)%Z -> (0 < d < 4096)%Z -> (T < d * 2 ^ 42)%Z ->
  Qfloor (round_double (inject_Z T / inject_Z d)) = (T / d)%Z.
Proof.
  intros HT Hd Hb.
  set (x := inject_Z T / inject_Z d).
  assert (Hdq : 0 < inject_Z d) by (change 0 with (inject_Z 0); rewrite <- Zlt_Qlt; lia).
  assert (Hdiv := Z.div_mod T d ltac:(lia)).
  assert (Hmod := Z.mod_pos_bound T d ltac:(lia)).
  set (n := (T / d)%Z) in *. set (r := (T mod d)%Z) in *.
  assert (Hxn : x == inject_Z n + inject_Z r / inject_Z d).
  { unfold x. rewrite Hdiv at 1. rewrite inject_Z_plus, inject_Z_mult. field. lra. }
  assert (Hn : (0 <= n < 2 ^ 42)%Z).
  { split; [apply Z.div_pos; lia |]. apply Z.div_lt_upper_bound; lia. }
  destruct (Z.eq_dec r 0) as [Hr | Hr].
  - assert (Hx : x == inject_Z n) by (rewrite Hxn, Hr; field; lra).
    rewrite (round_double_int x n Hx) by lia. apply Qfloor_Z.
  - assert (Hr1 : inject_Z 1 <= inject_Z r) by (rewrite <- Zle_Qle; lia).
    assert (Hr2 : inject_Z r <= inject_Z d - 1).
    { assert (H : inject_Z (r + 1) <= inject_Z d) by (rewrite <- Zle_Qle; lia).
      rewrite inject_Z_succ in H. lra. }
    assert (Hlo : 1 / inject_Z d <= inject_Z r / inject_Z d).
    { apply Qmult_le_compat_r; [exact Hr1 | apply Qinv_le_0_compat; lra]. }
    assert (Hhi : inject_Z r / inject_Z d <= 1 - 1 / inject_Z d).
    { apply (Qle_trans _ ((inject_Z d - 1) / inject_Z d)).
      - apply Qmult_le_compat_r; [exact Hr2 | apply Qinv_le_0_compat; lra].
      - apply Qle_lteq. right. field. lra. }
    assert (Hd1 : 1 # 4096 < 1 / inject_Z d).
    { apply Qlt_shift_div_l; [exact Hdq |].
      setoid_replace ((1 # 4096) * inject_Z d) with (inject_Z d / 4096) by field.
      apply Qlt_shift_div_r; [reflexivity |].
      change (inject_Z d < inject_Z 4096). rewrite <- Zlt_Qlt. lia. }
    assert (Hx0 : 0 < x).
    { rewrite Hxn. assert (0 <= inject_Z n) by (change 0 with (inject_Z 0); rewrite <- Zle_Qle; lia). lra. }
    assert (Hq : (ulp_exp x <= -11)%Z).
    { assert (He : (ilog2 (Qabs x) < 42)%Z).
      { apply ilog2_lt; rewrite Qabs_pos by lra; [exact Hx0 |].
        rewrite pow2_Z by lia. rewrite Hxn.
        assert (inject_Z n + 1 <= inject_Z (2 ^ 42)).
        { rewrite <- inject_Z_succ. rewrite <- Zle_Qle. lia. }
        lra. }
      unfold ulp_exp. lia. }
    assert (HP : pow2 (ulp_exp x) <= 1 # 2048).
    { apply (Qle_trans _ (pow2 (-11))); [apply pow2_le_mono; exact Hq | apply Qle_bool_iff; reflexivity]. }
    destruct (round_double_err x Hx0) as [E1 E2].
    set (v := round_double x) in *. set (P := pow2 (ulp_exp x)) in *.
    set (fr := inject_Z r / inject_Z d) in *. set (D := 1 / inject_Z d) in *.
    apply Qfloor_between; [| rewrite inject_Z_succ]; lra.
Qed.

(** ** Lemmas on the decimal rendering and parsing of integers *)

Lemma digit_char_ok (d : Z) :
  (0 <= d < 10)%Z -> is_digit (digit_char d) = true /\ digit_val (digit_char d) = d.
Proof.
  intros Hd.
  assert (d = 0 \/ d = 1 \/ d = 2 \/ d = 3 \/ d = 4 \/ d = 5 \/ d = 6 \/ d = 7
          \/ d = 8 \/ d = 9)%Z as Hc by lia.
  repeat destruct Hc as [Hc | Hc]; subst; split; reflexivity.
Qed.

Lemma digit_not_special (c : ascii) :
  is_digit c = true ->
  is_ws c = false /\ Ascii.eqb c "-"%char = false /\ Ascii.eqb c "+"%char = false
  /\ Ascii.eqb c colon = false.
Proof.
  destruct c as [[] [] [] [] [] [] [] []]; vm_compute; intros H;
    try discriminate; repeat split.
Qed.

Lemma dec_aux_value (f : nat) : forall (n : Z) (acc : str),
  (0 <= n < 2 ^ Z.of_nat f)%Z -> digits_acc (dec_aux f n acc) 0 = digits_acc acc n.
Proof.
  induction f as [| f IH]; intros n acc Hn;
    [cbn in Hn; assert (n = 0)%Z as -> by lia; reflexivity |].
  assert (Hm : (0 <= n mod 10 < 10)%Z) by (apply Z.mod_pos_bound; lia).
  destruct (digit_char_ok _ Hm) as [Hdig Hval].
  assert (Hdm : (n / 10 * 10 + n mod 10 = n)%Z)
    by (pose proof (Z.div_mod n 10); lia).
  cbn [dec_aux]. destruct (Z.ltb_spec n 10) as [Hlt | Hge].
  - cbn [digits_acc]. rewrite Hdig, Hval, Z.mod_small by lia. f_equal.
  - rewrite IH.
    + cbn [digits_acc]. rewrite Hdig, Hval, Hdm. reflexivity.
    + split; [apply Z.div_pos; lia |].
      apply Z.div_lt_upper_bound; [lia |].
      rewrite Nat2Z.inj_succ, Z.pow_succ_r in Hn by lia.
      assert (0 < 2 ^ Z.of_nat f)%Z by (apply Z.pow_pos_nonneg; lia). lia.
Qed.

Lemma dec_aux_digits (f : nat) : forall (n : Z) (acc : str),
  (0 <= n)%Z -> forallb is_digit (dec_aux f n acc) = forallb is_digit acc.
Proof.
  induction f as [| f IH]; intros n acc Hn; [reflexivity |].
  assert (Hm : (0 <= n mod 10 < 10)%Z) by (apply Z.mod_pos_bound; lia).
  destruct (digit_char_ok _ Hm) as [Hdig _].
  cbn [dec_aux]. destruct (n <? 10)%Z.
  - cbn [forallb]. rewrite Hdig. reflexivity.
  - rewrite IH by (apply Z.div_pos; lia). cbn [forallb]. rewrite Hdig. reflexivity.
Qed.

Lemma dec_aux_nonempty (f : nat) : forall (n : Z) (acc : str),
  acc <> [] -> dec_aux f n acc <> [].
Proof.
  induction f as [| f IH]; intros n acc Hacc; [exact Hacc |].
  cbn [dec_aux]. destruct (n <? 10)%Z; [discriminate | apply IH; discriminate].
Qed.

Lemma toString_nonneg (n : Z) :
  (0 <= n <= 2 ^ 53)%Z -> toString n = dec n.
Proof.
  intros Hn. unfold toString, toString_pos.
  destruct (Z.ltb_spec n 0); [lia |].
  destruct (Z.leb_spec n (2 ^ 53)); [reflexivity | lia].
Qed.

Lemma dec_fuel (n : Z) : (0 <= n)%Z -> (n < 2 ^ Z.of_nat (S (Z.to_nat (Z.log2 n))))%Z.
Proof.
  intros Hn. rewrite Nat2Z.inj_succ, Z2Nat.id by apply Z.log2_nonneg.
  destruct (Z.eq_dec n 0) as [-> | Hn0]; [reflexivity |].
  apply Z.log2_spec. lia.
Qed.

Lemma toString_shape (n : Z) :
  (0 <= n <= 2 ^ 53)%Z ->
  forallb is_digit (toString n) = true /\ toString n <> []
  /\ digits_acc (toString n) 0 = n.
Proof.
  intros Hn. rewrite toString_nonneg by exact Hn. unfold dec. split; [|split].
  - rewrite dec_aux_digits by lia. reflexivity.
  - cbn [dec_aux]. destruct (n <? 10)%Z; [discriminate |].
    apply dec_aux_nonempty. discriminate.
  - rewrite dec_aux_value; [reflexivity |].
    split; [lia | apply dec_fuel; lia].
Qed.

Lemma digits_acc_zeros (k : nat) (l : str) :
  digits_acc (repeat "0"%char k ++ l) 0 = digits_acc l 0.
Proof. induction k as [| k IH]; [reflexivity | exact IH]. Qed.

Lemma padStart2_shape (n : Z) :
  (0 <= n <= 2 ^ 53)%Z ->
  forallb is_digit (padStart2 (toString n)) = true /\ padStart2 (toString n) <> []
  /\ digits_acc (padStart2 (toString n)) 0 = n.
Proof.
  intros Hn. destruct (toString_shape n Hn) as (Hd & Hne & Hv).
  unfold padStart2. split; [|split].
  - rewrite forallb_app, Hd, andb_true_r.
    generalize (2 - List.length (toString n))%nat; intros k.
    induction k; [reflexivity | exact IHk].
  - destruct (toString n); [contradiction | ].
    destruct (repeat _ _); discriminate.
  - rewrite digits_acc_zeros. exact Hv.
Qed.

Lemma parseInt_digits (l : str) :
  forallb is_digit l = true -> l <> [] -> parseInt l = Some (digits_acc l 0).
Proof.
  destruct l as [| c r]; intros Hd Hne; [contradiction |].
  cbn [forallb] in Hd. apply andb_true_iff in Hd as [Hc _].
  destruct (digit_not_special c Hc) as (Hw & Hm & Hp & _).
  unfold parseInt. cbn [drop_ws]. rewrite Hw, Hm, Hp, Hc.
  rewrite Z.mul_1_l. reflexivity.
Qed.

Lemma split_colon_digits (a : str) :
  forallb is_digit a = true -> split_colon a = [a].
Proof.
  induction a as [| c a IH]; intros H; [reflexivity |].
  cbn [forallb] in H. apply andb_true_iff in H as [Hc Ha].
  destruct (digit_not_special c Hc) as (_ & _ & _ & Hcol).
  cbn [split_colon]. rewrite Hcol, IH by exact Ha. reflexivity.
Qed.

Lemma split_colon_app (a b : str) :
  forallb is_digit a = true -> split_colon (a ++ colon :: b) = a :: split_colon b.
Proof.
  induction a as [| c a IH]; intros H; [reflexivity |].
  cbn [forallb] in H. apply andb_true_iff in H as [Hc Ha].
  destruct (digit_not_special c Hc) as (_ & _ & _ & Hcol).
  cbn [split_colon app]. rewrite Hcol, IH by exact Ha. reflexivity.
Qed.

Lemma drop_ws_no_ws (l : str) : no_ws l = true -> drop_ws l = l.
Proof.
  destruct l as [| c r]; [reflexivity |]. unfold no_ws. cbn [forallb drop_ws].
  intros H. apply andb_true_iff in H as [Hc _].
  destruct (is_ws c); [discriminate | reflexivity].
Qed.

Lemma no_ws_rev (l : str) : no_ws l = true -> no_ws (rev l) = true.
Proof.
  unfold no_ws. rewrite !forallb_forall. intros H x Hx. apply H, in_rev, Hx.
Qed.

Lemma trim_no_ws (l : str) : no_ws l = true -> trim l = l.
Proof.
  intros H. unfold trim. rewrite (drop_ws_no_ws l H).
  rewrite (drop_ws_no_ws (rev l) (no_ws_rev l H)). apply rev_involutive.
Qed.

Lemma digits_no_ws (l : str) : forallb is_digit l = true -> no_ws l = true.
Proof.
  unfold no_ws. rewrite !forallb_forall. intros H x Hx.
  destruct (digit_not_special x (H x Hx)) as (Hw & _). rewrite Hw. reflexivity.
Qed.

Lemma colon_no_ws : no_ws [colon] = true.
Proof. reflexivity. Qed.

Lemma no_ws_app (a b : str) : no_ws (a ++ b) = no_ws a && no_ws b.
Proof. apply forallb_app. Qed.

(** The three components [formatTimestamp] writes for a whole number of
    seconds: hours, zero-padded minutes and zero-padded seconds. *)
(** The quotients and remainders of a safe integer are safe integers. *)
Ltac safe_bound :=
  change (2 ^ 53)%Z with 9007199254740992%Z in *;
  first [ split; [apply Z.div_pos; lia | apply Z.div_le_upper_bound; lia]
        | match goal with
          | |- context [(?x mod 60)%Z] =>
              pose proof (Z.mod_pos_bound x 60 ltac:(lia)); lia
          end ].

(** The two rounded divisions of [formatTimestamp] give the integer
    quotients on a safe integer. *)
Lemma format_divisions (sec : Z) :
  (0 <= sec < 2 ^ 53)%Z ->
  Qfloor (fdiv (inject_Z sec) 3600) = (sec / 3600)%Z /\
  Qfloor (fdiv (inject_Z (Z.rem sec 3600)) 60) = (Z.rem sec 3600 / 60)%Z.
Proof.
  intros Hs. change (2 ^ 53)%Z with 9007199254740992%Z in Hs.
  rewrite Z.rem_mod_nonneg by lia.
  assert (Hm := Z.mod_pos_bound sec 3600 ltac:(lia)).
  split; unfold fdiv.
  - apply (floor_div_double sec 3600); [lia | lia |].
    change (2 ^ 42)%Z with 4398046511104%Z. lia.
  - apply (floor_div_double (sec mod 3600) 60); [lia | lia |].
    change (2 ^ 42)%Z with 4398046511104%Z. lia.
Qed.

(** The three components [formatTimestamp] writes for a whole number of
    seconds: hours, zero-padded minutes and zero-padded seconds. *)
Lemma formatTimestamp_parts (sec : Z) :
  (0 <= sec < 2 ^ 53)%Z ->
  split_colon (formatTimestamp (inject_Z sec)) =
    if (sec <? 3600)%Z
    then [toString (sec / 60); padStart2 (toString (sec mod 60))]
    else [toString (sec / 3600); padStart2 (toString (sec mod 3600 / 60));
          padStart2 (toString (sec mod 60))].
Proof.
  intros Hs. destruct (format_divisions sec Hs) as [Hh3600 Hm60].
  unfold formatTimestamp. rewrite Qfloor_Z, Hh3600, Hm60.
  change (2 ^ 53)%Z with 9007199254740992%Z in Hs |- *.
  rewrite !Z.rem_mod_nonneg by lia.
  assert (Hb : (0 <= sec mod 3600 < 3600)%Z) by (apply Z.mod_pos_bound; lia).
  destruct (toString_shape (sec / 3600)) as (Hh & _);
    [safe_bound |].
  destruct (toString_shape (sec mod 3600 / 60)) as (Hm & _);
    [safe_bound |].
  destruct (padStart2_shape (sec mod 3600 / 60)) as (Hpm & _);
    [safe_bound |].
  destruct (padStart2_shape (sec mod 60)) as (Hps & _);
    [safe_bound |].
  destruct (Z.ltb_spec sec 3600) as [Hlt | Hge].
  - assert (Hz : (sec / 3600 = 0)%Z) by (apply Z.div_small; lia).
    rewrite Hz. cbn [Z.gtb Z.compare].
    rewrite (Z.mod_small sec 3600) in Hm |- * by lia.
    cbn [app]. rewrite split_colon_app by exact Hm.
    rewrite split_colon_digits by exact Hps. reflexivity.
  - assert (Hp : (sec / 3600 >? 0)%Z = true).
    { apply Z.gtb_lt. apply Z.div_str_pos. lia. }
    rewrite Hp. cbn [app].
    rewrite split_colon_app by exact Hh.
    rewrite split_colon_app by exact Hpm.
    rewrite split_colon_digits by exact Hps. reflexivity.
Qed.

Lemma formatTimestamp_no_ws (sec : Z) :
  (0 <= sec < 2 ^ 53)%Z -> no_ws (formatTimestamp (inject_Z sec)) = true.
Proof.
  intros Hs. destruct (format_divisions sec Hs) as [Hh3600 Hm60].
  unfold formatTimestamp. rewrite Qfloor_Z, Hh3600, Hm60.
  change (2 ^ 53)%Z with 9007199254740992%Z in Hs |- *.
  rewrite !Z.rem_mod_nonneg by lia.
  assert (Hb : (0 <= sec mod 3600 < 3600)%Z) by (apply Z.mod_pos_bound; lia).
  destruct (toString_shape (sec / 3600)) as (Hh & _);
    [safe_bound |].
  destruct (toString_shape (sec mod 3600 / 60)) as (Hm & _);
    [safe_bound |].
  destruct (padStart2_shape (sec mod 3600 / 60)) as (Hpm & _);
    [safe_bound |].
  destruct (padStart2_shape (sec mod 60)) as (Hps & _);
    [safe_bound |].
  destruct (sec / 3600 >? 0)%Z; rewrite !no_ws_app, colon_no_ws;
    repeat rewrite digits_no_ws by assumption; reflexivity.
Qed.

(** Parsing what [formatTimestamp] writes for a safe integer gives it back. *)
Lemma parse_format_safe (sec : Z) :
  (0 <= sec < 2 ^ 53)%Z -> parseTimestamp (formatTimestamp (inject_Z sec)) = sec.
Proof.
  intros Hs.
  unfold parseTimestamp. rewrite (trim_no_ws _ (formatTimestamp_no_ws sec Hs)).
  rewrite (formatTimestamp_parts sec Hs).
  change (2 ^ 53)%Z with 9007199254740992%Z in Hs.
  assert (H3600 : (0 <= sec mod 3600 < 3600)%Z) by (apply Z.mod_pos_bound; lia).
  assert (H60 : (0 <= sec mod 60 < 60)%Z) by (apply Z.mod_pos_bound; lia).
  assert (Hd1 := Z.div_mod sec 3600 ltac:(lia)).
  assert (Hd2 := Z.div_mod (sec mod 3600) 60 ltac:(lia)).
  assert (Hd3 := Z.div_mod sec 60 ltac:(lia)).
  assert (H3600' : (0 <= sec mod 3600 mod 60 < 60)%Z)
    by (apply Z.mod_pos_bound; lia).
  destruct (padStart2_shape (sec mod 60)) as (Hps & Hpsn & Hpsv);
    [safe_bound |].
  destruct (Z.ltb_spec sec 3600) as [Hlt | Hge].
  - destruct (toString_shape (sec / 60)) as (Hm & Hmn & Hmv);
      [safe_bound |].
    cbn [map]. rewrite !parseInt_digits by assumption.
    cbn [existsb isNaN orb]. rewrite Hmv, Hpsv.
    rewrite (Z.mod_small sec 3600) in * by lia.
    pose proof (Z.div_mod sec 60). lia.
  - destruct (toString_shape (sec / 3600)) as (Hh & Hhn & Hhv);
      [safe_bound |].
    destruct (padStart2_shape (sec mod 3600 / 60)) as (Hpm & Hpmn & Hpmv);
      [safe_bound |].
    cbn [map]. rewrite !parseInt_digits by assumption.
    cbn [existsb isNaN orb]. rewrite Hhv, Hpmv, Hpsv. lia.
Qed.

(** Claim C5, as stated, fails for large integers: [1152921504606857984]
    is a double, but [totalSeconds / 3600] rounds up to the next integer,
    so the hour field is one too large and parsing gives a different
    number. *)
Lemma timestamp_roundtrip_claim_counterexample :
  Qeq_bool (round_double (inject_Z 1152921504606857984)) (inject_Z 1152921504606857984)
    = true /\
  formatTimestamp (inject_Z 1152921504606857984) = s "320255973501905:59:44" /\
  parseTimestamp (formatTimestamp (inject_Z 1152921504606857984))
    <> 1152921504606857984%Z.
Proof.
  split; [vm_compute; reflexivity |]. split; [vm_compute; reflexivity |].
  vm_compute. discriminate.
Qed.

(** Claim C5 (amended): every whole number of seconds below [2^53] (every
    safe integer) survives formatting and parsing; below one hour it is
    written as two components (minutes, seconds padded to two digits), from
    one hour on as three (hours, then minutes and seconds padded to two
    digits); the leading unit is not padded. *)
Theorem timestamp_roundtrip (sec : Z) :
  (0 <= sec < 2 ^ 53)%Z ->
  parseTimestamp (formatTimestamp (inject_Z sec)) = sec /\
  split_colon (formatTimestamp (inject_Z sec)) =
    if (sec <? 3600)%Z
    then [toString (sec / 60); padStart2 (toString (sec mod 60))]
    else [toString (sec / 3600); padStart2 (toString (sec mod 3600 / 60));
          padStart2 (toString (sec mod 60))].
Proof.
  intros Hs. split; [exact (parse_format_safe sec Hs) |].
  exact (formatTimestamp_parts sec Hs).
Qed.

Lemma timestamp_roundtrip_witness :
  parseTimestamp (formatTimestamp (inject_Z 3750)) = 3750%Z /\
  parseTimestamp (formatTimestamp (inject_Z 9007199254740991)) = 9007199254740991%Z /\
  formatTimestamp (inject_Z 9007199254740991) = s "2501999792983:36:31".
Proof.
  split; [apply (proj1 (timestamp_roundtrip 3750 ltac:(split; [lia | reflexivity]))) |].
  split.
  - apply (proj1 (timestamp_roundtrip 9007199254740991 ltac:(split; [lia | reflexivity]))).
  - vm_compute. reflexivity.
Defined.

(** Claim C6, as stated, fails on two counts: ["1:02:30"] is one hour, two
    minutes and thirty seconds, 3750 seconds and not 3722; and [parseInt]
    accepts a sign, so the component ["-1"] is parsed as a negative number
    instead of failing. *)
Lemma parseTimestamp_claim_counterexample :
  parseTimestamp (s "1:02:30") <> 3722%Z /\
  parseTimestamp (s "1:02:30") = 3750%Z /\
  parseTimestamp (s "-1:00") = (-60)%Z.
Proof. vm_compute. split; [discriminate | split; reflexivity]. Qed.

(** Claim C6 (amended): [parseTimestamp] trims its input, splits it on [:]
    and reads every component with [parseInt]; if any component is [NaN] it
    returns 0 (the warning is only logged); two components [m:s] give
    [m*60+s], three components [h:m:s] give [h*3600+m*60+s], any other count
    gives 0.  Examples: ["1:23"] is 83, ["1:02:30"] is 3750, ["bad"] is 0. *)
Theorem parseTimestamp_spec :
  (forall l, existsb isNaN (map parseInt (split_colon (trim l))) = true ->
             parseTimestamp l = 0%Z) /\
  (forall l a b m sec, split_colon (trim l) = [a; b] ->
             parseInt a = Some m -> parseInt b = Some sec ->
             parseTimestamp l = (m * 60 + sec)%Z) /\
  (forall l a b c h m sec, split_colon (trim l) = [a; b; c] ->
             parseInt a = Some h -> parseInt b = Some m -> parseInt c = Some sec ->
             parseTimestamp l = (h * 3600 + m * 60 + sec)%Z) /\
  (forall l, existsb isNaN (map parseInt (split_colon (trim l))) = false ->
             (List.length (split_colon (trim l)) <> 2 /\
              List.length (split_colon (trim l)) <> 3)%nat ->
             parseTimestamp l = 0%Z) /\
  parseTimestamp (s "1:23") = 83%Z /\
  parseTimestamp (s "1:02:30") = 3750%Z /\
  parseTimestamp (s "bad") = 0%Z.
Proof.
  split; [| split; [| split; [| split]]].
  - intros l H. unfold parseTimestamp. rewrite H. reflexivity.
  - intros l a b m sec Hs Ha Hb. unfold parseTimestamp.
    rewrite Hs. cbn [map existsb]. rewrite Ha, Hb. reflexivity.
  - intros l a b c h m sec Hs Ha Hb Hc. unfold parseTimestamp.
    rewrite Hs. cbn [map existsb]. rewrite Ha, Hb, Hc. reflexivity.
  - intros l Hn [H2 H3]. unfold parseTimestamp. rewrite Hn.
    destruct (split_colon (trim l)) as [| a [| b [| c [| d r]]]];
      cbn [List.length] in H2, H3; try congruence; cbn [map];
      repeat match goal with |- context [parseInt ?x] => destruct (parseInt x) end;
      reflexivity.
  - repeat split; vm_compute; reflexivity.
Qed.

Lemma parseTimestamp_spec_witness :
  parseTimestamp (s "bad") = 0%Z /\ parseTimestamp (s "1:23") = 83%Z.
Proof.
  split.
  - apply (proj1 parseTimestamp_spec). vm_compute. reflexivity.
  - apply (proj1 (proj2 parseTimestamp_spec) (s "1:23") (s "1") (s "23") 1%Z 23%Z);
      vm_compute; reflexivity.
Defined.

Example ex_find1 : findSegmentAtTime sample_segments 15 = Some (seg_q 10 "b" 1).
Proof. reflexivity. Qed.
Example ex_find2 : findSegmentAtTime sample_segments 25 = Some (seg_q 20 "c" 2).
Proof. reflexivity. Qed.
Example ex_find3 : findSegmentAtTime sample_segments (-1) = None.
Proof. reflexivity. Qed.
Example ex_range : getTextForRange sample_segments 0 20 = s "a b".
Proof. reflexivity. Qed.

(** ** Lemmas on [findSegmentAtTime] *)

Lemma seg_lt_trans : Transitive seg_lt.
Proof. intros a b c Hab Hbc. unfold seg_lt in *. eapply Qlt_trans; eauto. Qed.

Lemma find_head_true (seg : TranscriptSegment) rest t :
  startTime seg <= t ->
  (forall n, nth_error rest 0 = Some n -> t < startTime n) ->
  findSegmentAtTime (seg :: rest) t = Some seg.
Proof.
  intros Hle Hlt. cbn [findSegmentAtTime].
  apply Qle_bool_iff in Hle. rewrite Hle. cbn [andb].
  destruct rest as [| n r]; [reflexivity |].
  rewrite (proj2 (Qltb_iff _ _) (Hlt n eq_refl)). reflexivity.
Qed.

Lemma find_some_slot segments t seg :
  findSegmentAtTime segments t = Some seg -> exists i, in_slot segments i seg t.
Proof.
  induction segments as [| x rest IH]; [discriminate |].
  cbn [findSegmentAtTime].
  destruct (Qle_bool (startTime x) t) eqn:Hle; cbn [andb].
  - destruct rest as [| n r] eqn:Hr.
    + intros H. injection H as <-. exists 0%nat.
      split; [reflexivity | split; [apply Qle_bool_iff; exact Hle |]].
      intros n Hn. discriminate.
    + destruct (Qltb t (startTime n)) eqn:Hlt.
      * intros H. injection H as <-. exists 0%nat.
        split; [reflexivity | split; [apply Qle_bool_iff; exact Hle |]].
        intros m Hm. cbn in Hm. injection Hm as <-. apply Qltb_iff, Hlt.
      * intros H. destruct (IH H) as [i Hi]. exists (S i). exact Hi.
  - intros H. destruct (IH H) as [i Hi]. exists (S i). exact Hi.
Qed.

Lemma sorted_head_le g r j x :
  StronglySorted seg_lt (g :: r) -> nth_error (g :: r) j = Some x ->
  startTime g <= startTime x.
Proof.
  intros Hs Hj. destruct j as [| j].
  - cbn in Hj. injection Hj as <-. apply Qle_refl.
  - cbn in Hj. apply StronglySorted_inv in Hs as [_ Hf].
    rewrite Forall_forall in Hf. apply Qlt_le_weak, Hf.
    eapply nth_error_In; eauto.
Qed.

Lemma slot_find segments : forall t i seg,
  StronglySorted seg_lt segments -> in_slot segments i seg t ->
  findSegmentAtTime segments t = Some seg.
Proof.
  induction segments as [| x rest IH]; intros t i seg Hs [Hi [Hle Hlt]].
  - destruct i; discriminate.
  - destruct i as [| j].
    + cbn in Hi. injection Hi as <-. apply find_head_true; [exact Hle |].
      exact Hlt.
    + cbn in Hi, Hlt.
      destruct rest as [| g r]; [destruct j; discriminate |].
      assert (Hg : startTime g <= t).
      { eapply Qle_trans; [| exact Hle].
        eapply sorted_head_le; [| exact Hi]. now apply StronglySorted_inv in Hs. }
      assert (Hhead : Qltb t (startTime g) = false).
      { destruct (Qltb t (startTime g)) eqn:E; [| reflexivity].
        apply Qltb_iff in E. exfalso. apply (Qlt_not_le _ _ E Hg). }
      cbn [findSegmentAtTime]. rewrite Hhead, andb_false_r.
      apply (IH t j seg); [now apply StronglySorted_inv in Hs |].
      split; [exact Hi | split; [exact Hle | exact Hlt]].
Qed.

Lemma find_first_le f rest t :
  startTime f <= t -> findSegmentAtTime (f :: rest) t <> None.
Proof.
  revert f. induction rest as [| g r IH]; intros f Hle.
  - cbn. apply Qle_bool_iff in Hle. rewrite Hle. discriminate.
  - cbn [findSegmentAtTime]. apply Qle_bool_iff in Hle as Hb. rewrite Hb.
    cbn [andb]. destruct (Qltb t (startTime g)) eqn:E; [discriminate |].
    apply IH. apply Qnot_lt_le. intros Hc. apply Qltb_iff in Hc. congruence.
Qed.

Lemma find_all_above segments t :
  (forall x, In x segments -> t < startTime x) -> findSegmentAtTime segments t = None.
Proof.
  induction segments as [| x rest IH]; intros H; [reflexivity |].
  cbn [findSegmentAtTime].
  assert (Hx : Qle_bool (startTime x) t = false).
  { destruct (Qle_bool (startTime x) t) eqn:E; [| reflexivity].
    apply Qle_bool_iff in E. exfalso. apply (Qlt_not_le _ _ (H x (or_introl eq_refl)) E). }
  rewrite Hx. cbn [andb]. apply IH. intros y Hy. apply H. right. exact Hy.
Qed.

(** Claim C7: on segments with strictly ascending start times,
    [findSegmentAtTime] returns exactly the segment [s_i] with
    [s_i.startTime <= t < s_(i+1).startTime] (no upper bound for the last
    one); it returns [null] exactly when the list is empty or [t] precedes
    the first start time, so in particular for every negative [t] when all
    start times are non-negative. *)
Theorem findSegmentAtTime_spec (segments : list TranscriptSegment) (t : Q) :
  Sorted seg_lt segments ->
  (forall seg, findSegmentAtTime segments t = Some seg <->
     exists i, nth_error segments i = Some seg /\ startTime seg <= t /\
       (forall n, nth_error segments (S i) = Some n -> t < startTime n)) /\
  (findSegmentAtTime segments t = None <->
     segments = [] \/ exists f rest, segments = f :: rest /\ t < startTime f) /\
  ((forall x, In x segments -> 0 <= startTime x) -> t < 0 ->
     findSegmentAtTime segments t = None).
Proof.
  intros Hs. apply Sorted_StronglySorted in Hs; [| exact seg_lt_trans].
  assert (Hbelow : forall f rest, segments = f :: rest -> t < startTime f ->
                   findSegmentAtTime segments t = None).
  { intros f rest -> Hlt. apply find_all_above. intros x [<- | Hx]; [exact Hlt |].
    apply StronglySorted_inv in Hs as [_ Hf]. rewrite Forall_forall in Hf.
    eapply Qlt_trans; [exact Hlt | apply Hf, Hx]. }
  split; [| split].
  - intros seg. split.
    + apply find_some_slot.
    + intros [i Hi]. eapply slot_find; eauto.
  - split.
    + intros Hn. destruct segments as [| f rest]; [left; reflexivity | right].
      exists f, rest. split; [reflexivity |].
      apply Qnot_le_lt. intros Hle. exact (find_first_le f rest t Hle Hn).
    + intros [-> | (f & rest & Heq & Hlt)]; [reflexivity |].
      exact (Hbelow f rest Heq Hlt).
  - intros Hnn Hneg. destruct segments as [| f rest]; [reflexivity |].
    apply (Hbelow f rest eq_refl).
    eapply Qlt_le_trans; [exact Hneg | apply Hnn; left; reflexivity].
Qed.

Lemma findSegmentAtTime_spec_witness :
  Sorted seg_lt sample_segments /\
  findSegmentAtTime sample_segments 15 = Some (seg_q 10 "b" 1).
Proof.
  assert (Hs : Sorted seg_lt sample_segments).
  { unfold sample_segments.
    repeat constructor; unfold seg_lt; cbn; reflexivity. }
  split; [exact Hs |].
  apply (proj1 (findSegmentAtTime_spec sample_segments 15 Hs)).
  exists 1%nat. split; [reflexivity | split].
  - cbn. unfold Qle. cbn. lia.
  - intros n Hn. cbn in Hn. injection Hn as <-. cbn. reflexivity.
Defined.

(** ** Lemmas on [getTextForRange] *)

Lemma join_space_cons (r : list str) : forall x,
  join [" "%char] (x :: r) = join_spaced (x :: r).
Proof.
  induction r as [| y r IH]; intros x.
  - cbn. apply app_nil_r.
  - change (join [" "%char] (x :: y :: r))
      with (x ++ (" "%char :: y) ++ List.concat (map (fun z => [" "%char] ++ z) r)).
    change (join_spaced (x :: y :: r)) with (x ++ " "%char :: join_spaced (y :: r)).
    rewrite <- IH. reflexivity.
Qed.

Lemma join_space (l : list str) : join [" "%char] l = join_spaced l.
Proof. destruct l as [| x r]; [reflexivity | apply join_space_cons]. Qed.

Lemma range_test_iff (st en q : Q) :
  Qle_bool st q && Qltb q en = true <-> st <= q /\ q < en.
Proof. rewrite andb_true_iff, Qle_bool_iff, Qltb_iff. reflexivity. Qed.

Lemma selected_texts segments st en :
  map text (filter (fun seg => Qle_bool st (startTime seg) && Qltb (startTime seg) en)
              segments) = texts_in_range segments st en.
Proof.
  induction segments as [| x r IH]; [reflexivity |].
  cbn [filter texts_in_range].
  destruct (Qlt_le_dec (startTime x) st) as [Hlo | Hlo];
    destruct (Qlt_le_dec (startTime x) en) as [Hhi | Hhi].
  - replace (Qle_bool st (startTime x)) with false; [exact IH |].
    symmetry. apply not_true_iff_false. rewrite Qle_bool_iff.
    intros H. apply (Qlt_not_le _ _ Hlo H).
  - replace (Qle_bool st (startTime x)) with false; [exact IH |].
    symmetry. apply not_true_iff_false. rewrite Qle_bool_iff.
    intros H. apply (Qlt_not_le _ _ Hlo H).
  - rewrite (proj2 (range_test_iff st en (startTime x)) (conj Hlo Hhi)).
    cbn [map]. rewrite IH. reflexivity.
  - replace (Qle_bool st (startTime x) && Qltb (startTime x) en) with false;
      [exact IH |].
    symmetry. apply not_true_iff_false. rewrite range_test_iff.
    intros [_ H]. apply (Qlt_not_le _ _ H Hhi).
Qed.

(** Claim C8: [getTextForRange] is the texts of the segments with
    [start <= startTime < end], in list order, joined by one space; a segment
    starting exactly at [end] does not contribute; no segments give the empty
    string. *)
Theorem getTextForRange_spec (segments : list TranscriptSegment) (st en : Q) :
  getTextForRange segments st en = join_spaced (texts_in_range segments st en) /\
  (forall pre x post, startTime x == en ->
     getTextForRange (pre ++ x :: post) st en = getTextForRange (pre ++ post) st en) /\
  getTextForRange [] st en = [].
Proof.
  split; [| split].
  - unfold getTextForRange. rewrite selected_texts. apply join_space.
  - intros pre x post Hx. unfold getTextForRange. rewrite !filter_app.
    cbn [filter].
    replace (Qltb (startTime x) en) with false; [rewrite andb_false_r; reflexivity |].
    symmetry. apply not_true_iff_false. rewrite Qltb_iff. rewrite Hx.
    apply Qlt_irrefl.
  - reflexivity.
Qed.

Lemma getTextForRange_spec_witness :
  getTextForRange (sample_segments ++ [seg_q 20 "d" 3]) 10 20 =
  getTextForRange sample_segments 10 20.
Proof.
  apply (proj1 (proj2 (getTextForRange_spec [] 10 20)) sample_segments).
  reflexivity.
Defined.

(** ** Proofs about the loop controller *)

Module LoopControllerSpec.

Import LoopController.

Example ex_set_start_end :
  getState (run [OSetStart 5; OSetEnd 2] (init true)) =
  mkLoopState true (Some 2) (Some 5).
Proof. reflexivity. Qed.

Example ex_tick :
  seeks (run [OSetLoop 10 20; OFire 0 21] (init true)) = [10; 10].
Proof. reflexivity. Qed.

Lemma remove_single (i : nat) : remove Nat.eq_dec i [i] = [].
Proof. cbn. destruct (Nat.eq_dec i i); [reflexivity | contradiction]. Qed.

Lemma inv_core (c c' : t) : core c = core c' -> inv c -> inv c'.
Proof.
  destruct c, c'. unfold core, inv; cbn. intros H. injection H as -> -> -> -> ->.
  exact (fun h => h).
Qed.

Lemma core_notify (c : t) : core (notifyStateChange c) = core c.
Proof. unfold notifyStateChange. destruct (onStateChange c); reflexivity. Qed.

Lemma core_seek (q : Q) (c : t) : core (seekTo q c) = core c.
Proof. reflexivity. Qed.

Lemma inv_init (b : bool) : inv (init b).
Proof.
  unfold inv; cbn. split; [| split; [| reflexivity]].
  - split; [discriminate | intros [H _]; contradiction].
  - intros H; contradiction.
Qed.

Lemma inv_activate (c : t) (st en : Q) :
  startTime c = Some st -> endTime c = Some en ->
  timers c = match intervalId c with Some i => [i] | None => [] end ->
  inv (activate c).
Proof.
  intros Hs He Ht. unfold activate. rewrite Hs, He.
  apply (inv_core (startMonitoring (set_active true c)));
    [rewrite core_notify; reflexivity |].
  destruct c as [st' en' act iid sub tms nt sk nts]; cbn in Hs, He, Ht |- *.
  subst. unfold inv, startMonitoring; cbn.
  destruct iid as [i |]; cbn; (split; [| split]);
    try reflexivity; try (split; [intros _; split; discriminate | reflexivity]);
    intros _; discriminate.
Qed.

Lemma inv_step (c : t) (o : op) : inv c -> inv (step c o).
Proof.
  intros Hc. pose proof Hc as (Hact & Hen & Htm).
  destruct o as [time | time | a b | | | id pos]; cbn [step].
  - (* setStart *)
    apply (inv_core (set_bounds (Some time) (endTime c) c));
      [unfold setStart; rewrite core_notify; reflexivity |].
    unfold inv, set_bounds; cbn. split; [| split; [| exact Htm]].
    + rewrite Hact. split; intros [H1 H2]; split; try discriminate; auto.
    + intros _; discriminate.
  - (* setEnd *)
    unfold setEnd. destruct (startTime c) as [st |] eqn:Hs; [| exact Hc].
    eapply inv_activate; reflexivity || exact Htm.
  - (* setLoop *)
    unfold setLoop. eapply inv_activate; reflexivity || exact Htm.
  - (* clear *)
    apply (inv_core (set_active false (set_bounds None None (stopMonitoring c))));
      [unfold clear; rewrite core_notify; reflexivity |].
    unfold inv, set_active, set_bounds, stopMonitoring; cbn.
    destruct (intervalId c) as [i |] eqn:Hi; cbn; rewrite ?Hi in Htm;
      rewrite ?Hi, ?Htm, ?remove_single;
      (split; [split; [discriminate | intros [H _]; contradiction] |
               split; [intros H; contradiction | reflexivity]]).
  - (* destroy *)
    apply (inv_core (stopMonitoring c));
      [unfold destroy; destruct (stopMonitoring c); reflexivity |].
    unfold stopMonitoring. destruct (intervalId c) as [i |] eqn:Hi; [| exact Hc].
    unfold inv; cbn. split; [exact Hact | split; [exact Hen |]].
    rewrite Htm, remove_single. reflexivity.
  - (* a timer fires *)
    destruct (existsb (Nat.eqb id) (timers c)); [| exact Hc].
    unfold tick. destruct (negb (isActive c)); [exact Hc |].
    destruct (startTime c), (endTime c); try exact Hc.
    destruct (Qle_bool q0 pos); [| exact Hc].
    apply (inv_core c); [reflexivity | exact Hc].
Qed.

Lemma inv_run (ops : list op) : forall c, inv c -> inv (run ops c).
Proof.
  induction ops as [| o ops IH]; intros c Hc; [exact Hc |].
  apply IH, inv_step, Hc.
Qed.

Lemma reachable_inv (c : t) : reachable c -> inv c.
Proof. intros (b & ops & ->). apply inv_run, inv_init. Qed.

Lemma run_app (ops1 ops2 : list op) (c : t) :
  run (ops1 ++ ops2) c = run ops2 (run ops1 c).
Proof. apply fold_left_app. Qed.

Lemma reachable_step (c : t) (o : op) : reachable c -> reachable (step c o).
Proof.
  intros (b & ops & ->). exists b, (ops ++ [o]). rewrite run_app. reflexivity.
Qed.

Lemma run_reachable (b : bool) (ops : list op) : reachable (run ops (init b)).
Proof. exists b, ops. reflexivity. Qed.

(** Effect of [activate] once both bounds are set. *)
Lemma Qmin_lt_Qmax (x y : Q) : ~ x == y -> Qmin x y < Qmax x y.
Proof.
  intros Hxy. unfold Qmin, Qmax, GenericMinMax.gmin, GenericMinMax.gmax.
  destruct (Qcompare x y) eqn:Hc.
  - exfalso. apply Hxy. apply Qeq_alt. exact Hc.
  - apply Qlt_alt. exact Hc.
  - apply Qgt_alt. exact Hc.
Qed.

Lemma activate_spec (c : t) (st en : Q) :
  startTime c = Some st -> endTime c = Some en ->
  let c' := activate c in
  startTime c' = Some st /\ endTime c' = Some en /\ isActive c' = true /\
  intervalId c' = Some (match intervalId c with Some i => i | None => nextTimer c end) /\
  timers c' = (match intervalId c with
               | Some _ => timers c | None => timers c ++ [nextTimer c] end) /\
  seeks c' = seeks c ++ [st] /\
  onStateChange c' = onStateChange c /\
  notes c' = notes c ++ (if onStateChange c then [getState c'] else []).
Proof.
  destruct c as [st' en' act iid sub tms nt sk nts]; cbn. intros -> ->.
  unfold activate, notifyStateChange, startMonitoring, seekTo, set_active; cbn.
  destruct iid, sub; cbn; repeat split; rewrite ?app_nil_r; reflexivity.
Qed.

(** Effect of [notifyStateChange]: only the delivered snapshots change. *)
Lemma notify_spec (c : t) :
  let c' := notifyStateChange c in
  getState c' = getState c /\ core c' = core c /\ seeks c' = seeks c /\
  onStateChange c' = onStateChange c /\
  notes c' = notes c ++ (if onStateChange c then [getState c] else []).
Proof.
  destruct c as [st en act iid sub tms nt sk nts].
  unfold notifyStateChange; cbn. destruct sub; cbn; rewrite ?app_nil_r;
    repeat split.
Qed.

Lemma fires_inactive (fires : list (nat * Q)) : forall c,
  isActive c = false ->
  run (map (fun '(i, p) => OFire i p) fires) c = c.
Proof.
  induction fires as [| [i p] fires IH]; intros c Hc; [reflexivity |].
  cbn [map run fold_left step]. fold (run (map (fun '(i, p) => OFire i p) fires)).
  assert (Hs : (if existsb (Nat.eqb i) (timers c) then tick p c else c) = c).
  { unfold tick. rewrite Hc. destruct (existsb _ _); reflexivity. }
  unfold run in *. rewrite Hs. apply IH, Hc.
Qed.

Lemma activations_keep_timer (ops : list op) : forall c i,
  forallb is_activation ops = true -> intervalId c = Some i -> timers c = [i] ->
  intervalId (run ops c) = Some i /\ timers (run ops c) = [i].
Proof.
  induction ops as [| o ops IH]; intros c i Hops Hi Ht; [split; assumption |].
  cbn [forallb] in Hops. apply andb_true_iff in Hops as [Ho Hops].
  change (run (o :: ops) c) with (run ops (step c o)).
  apply (IH _ i Hops); destruct o as [time | time | a b | | | id pos];
    try discriminate; cbn [step].
  - unfold setEnd. destruct (startTime c) as [st |] eqn:Hs; [| exact Hi].
    destruct (activate_spec (set_bounds (Some (Qmin st time)) (Some (Qmax st time)) c)
                (Qmin st time) (Qmax st time) eq_refl eq_refl) as (_ & _ & _ & H & _).
    rewrite H. cbn. rewrite Hi. reflexivity.
  - unfold setLoop.
    destruct (activate_spec (set_bounds (Some (Qmin a b)) (Some (Qmax a b)) c)
                (Qmin a b) (Qmax a b) eq_refl eq_refl) as (_ & _ & _ & H & _).
    rewrite H. cbn. rewrite Hi. reflexivity.
  - unfold setEnd. destruct (startTime c) as [st |] eqn:Hs; [| exact Ht].
    destruct (activate_spec (set_bounds (Some (Qmin st time)) (Some (Qmax st time)) c)
                (Qmin st time) (Qmax st time) eq_refl eq_refl) as (_ & _ & _ & _ & H & _).
    rewrite H. cbn. rewrite Hi. exact Ht.
  - unfold setLoop.
    destruct (activate_spec (set_bounds (Some (Qmin a b)) (Some (Qmax a b)) c)
                (Qmin a b) (Qmax a b) eq_refl eq_refl) as (_ & _ & _ & _ & H & _).
    rewrite H. cbn. rewrite Hi. exact Ht.
Qed.

(** *** Claims on the loop controller *)

(** Claim C1, as stated, fails: [setStart] called on an active loop
    [[10, 20]] keeps the end bound, stays active and leaves the polling
    timer registered. *)
Lemma setStart_claim_counterexample :
  let c := setStart 5 (run [OSetLoop 10 20] (init true)) in
  endTime c = Some 20 /\ isActive c = true /\ intervalId c = Some 0%nat /\
  timers c = [0%nat] /\
  ~ (forall b ops time, endTime (setStart time (run ops (init b))) = None).
Proof.
  cbn zeta. split; [reflexivity | split; [reflexivity | split; [reflexivity |]]].
  split; [reflexivity |].
  intros H. specialize (H true [OSetLoop 10 20] 5). discriminate H.
Qed.

(** Claim C1 (amended): [setStart(t)] sets [startTime = t] and delivers the
    new state to the callback when one is registered; it leaves [endTime],
    [isActive], the polling timer and the seeks untouched.  So from Idle or
    SettingStart (no end bound) it yields SettingStart
    [{isActive: false, startTime: t, endTime: null}], while from Active the
    loop stays active with its old end bound and timer. *)
Theorem setStart_spec (c : t) (time : Q) :
  let c' := setStart time c in
  startTime c' = Some time /\ endTime c' = endTime c /\ isActive c' = isActive c /\
  intervalId c' = intervalId c /\ timers c' = timers c /\ seeks c' = seeks c /\
  notes c' = notes c ++ (if onStateChange c then [getState c'] else []) /\
  (reachable c -> endTime c = None ->
   getState c' = mkLoopState false (Some time) None).
Proof.
  cbn zeta. unfold setStart.
  destruct (notify_spec (set_bounds (Some time) (endTime c) c))
    as (Hg & Hc & Hs & _ & Hn).
  unfold core in Hc. injection Hc as H1 H2 H3 H4 H5.
  rewrite H1, H2, H3, H4, H5, Hs, Hn, Hg. cbn.
  repeat split; try reflexivity.
  intros Hr He. unfold getState; cbn. rewrite He.
  destruct (reachable_inv c Hr) as (Hact & _).
  destruct (isActive c) eqn:Ha; [| reflexivity].
  exfalso. destruct (proj1 Hact eq_refl) as [_ Hn']. contradiction.
Qed.

(** On the active loop [[10, 20]] (with a callback), [setStart(5)] keeps the
    loop active with end [20], its timer [0] and one new snapshot; from the
    SettingStart state reached by [setStart(3)] it gives SettingStart at [5]. *)
Lemma setStart_spec_witness :
  (let c := run [OSetLoop 10 20] (init true) in
   let c' := setStart 5 c in
   startTime c' = Some 5 /\ endTime c' = Some 20 /\ isActive c' = true /\
   intervalId c' = Some 0%nat /\ timers c' = [0%nat] /\ seeks c' = seeks c /\
   notes c' = notes c ++ [mkLoopState true (Some 5) (Some 20)]) /\
  getState (setStart 5 (run [OSetStart 3] (init true))) =
    mkLoopState false (Some 5) None.
Proof.
  split.
  - cbn zeta.
    destruct (setStart_spec (run [OSetLoop 10 20] (init true)) 5)
      as (H1 & H2 & H3 & H4 & H5 & H6 & H7 & _).
    rewrite H1, H2, H3, H4, H5, H6, H7.
    vm_compute. repeat split; reflexivity.
  - apply (proj2 (proj2 (proj2 (proj2 (proj2 (proj2 (proj2
             (setStart_spec (run [OSetStart 3] (init true)) 5)))))))).
    + apply (run_reachable true [OSetStart 3]).
    + reflexivity.
Defined.

(** Claim C2, as stated, fails by design: [setStart] does not clear an
    active loop, so [setStart(30)] on the active loop [[10, 20]] gives an
    active loop whose start lies after its end. *)
Lemma loop_invariant_claim_counterexample :
  ~ (forall b ops,
       let c := run ops (init b) in
       (forall st en, startTime c = Some st -> endTime c = Some en ->
                      st < en /\ isActive c = true) /\
       (isActive c = true -> startTime c <> None /\ endTime c <> None)) /\
  getState (run [OSetLoop 10 20; OSetStart 30] (init true)) =
    mkLoopState true (Some 30) (Some 20).
Proof.
  split; [| reflexivity].
  intros H. destruct (H true [OSetLoop 10 20; OSetStart 30]) as [H1 _].
  destruct (H1 30 20 eq_refl eq_refl) as [Hlt _].
  apply (Qlt_irrefl 20). apply (Qlt_trans _ 30); [| exact Hlt].
  reflexivity.
Qed.

(** Claim C2 (amended): in every reachable state [isActive] is true exactly
    when both bounds are non-null; right after [setLoop(a, b)] with distinct
    [a] and [b], or after [setEnd(t)] with a start bound different from [t],
    the bounds satisfy [startTime < endTime]. *)
Theorem loop_state_invariant (b : bool) (ops : list op) :
  let c := run ops (init b) in
  (isActive c = true <-> startTime c <> None /\ endTime c <> None) /\
  (forall x y, ~ x == y -> bounds_ordered (setLoop x y c)) /\
  (forall time, (forall st, startTime c = Some st -> ~ st == time) ->
   bounds_ordered (setEnd time c)).
Proof.
  cbn zeta. set (c := run ops (init b)).
  split; [| split].
  - exact (proj1 (reachable_inv c (run_reachable b ops))).
  - intros x y Hxy. unfold setLoop, bounds_ordered.
    destruct (activate_spec (set_bounds (Some (Qmin x y)) (Some (Qmax x y)) c)
                (Qmin x y) (Qmax x y) eq_refl eq_refl) as (H1 & H2 & _).
    rewrite H1, H2. apply Qmin_lt_Qmax; exact Hxy.
  - intros time Hne. unfold setEnd, bounds_ordered.
    destruct (startTime c) as [st |] eqn:Hs; [| rewrite Hs; exact I].
    destruct (activate_spec (set_bounds (Some (Qmin st time)) (Some (Qmax st time)) c)
                (Qmin st time) (Qmax st time) eq_refl eq_refl) as (H1 & H2 & _).
    rewrite H1, H2. apply Qmin_lt_Qmax. exact (Hne st eq_refl).
Qed.

Lemma loop_state_invariant_witness :
  bounds_ordered (setLoop 5 2 (run [OSetStart 1] (init true))) /\
  bounds_ordered (setEnd 4 (run [OSetStart 1] (init true))).
Proof.
  split.
  - apply (proj1 (proj2 (loop_state_invariant true [OSetStart 1])) 5 2).
    intros H. vm_compute in H. discriminate H.
  - apply (proj2 (proj2 (loop_state_invariant true [OSetStart 1])) 4).
    intros st Hs H. vm_compute in Hs. injection Hs as <-.
    vm_compute in H. discriminate H.
Defined.

(** Claim C3: [setEnd] without a start leaves the controller unchanged;
    with a start it normalises the bounds to [min]/[max], activates the loop,
    has one polling timer registered and seeks once to the new start;
    [setStart(5)] then [setEnd(2)] gives [{true, 2, 5}]. *)
Theorem setEnd_spec (b : bool) (ops : list op) (time : Q) :
  let c := run ops (init b) in
  let c' := setEnd time c in
  (startTime c = None -> c' = c) /\
  (forall st, startTime c = Some st ->
     startTime c' = Some (Qmin st time) /\ endTime c' = Some (Qmax st time) /\
     isActive c' = true /\ (exists i, intervalId c' = Some i /\ timers c' = [i]) /\
     seeks c' = seeks c ++ [Qmin st time]) /\
  getState (run [OSetStart 5; OSetEnd 2] (init b)) = mkLoopState true (Some 2) (Some 5).
Proof.
  cbn zeta. set (c := run ops (init b)).
  split; [| split; [| destruct b; reflexivity]].
  - intros Hs. unfold setEnd. rewrite Hs. reflexivity.
  - intros st Hs.
    assert (Hinv : inv (setEnd time c)).
    { apply reachable_inv. apply (reachable_step c (OSetEnd time)), run_reachable. }
    destruct Hinv as (_ & _ & Htm).
    unfold setEnd in Htm |- *. rewrite Hs in Htm |- *.
    destruct (activate_spec (set_bounds (Some (Qmin st time)) (Some (Qmax st time)) c)
                (Qmin st time) (Qmax st time) eq_refl eq_refl)
      as (H1 & H2 & H3 & H4 & _ & H6 & _).
    rewrite H4 in Htm.
    repeat split; [exact H1 | exact H2 | exact H3 | | exact H6].
    eexists. split; [exact H4 | exact Htm].
Qed.

Lemma setEnd_spec_witness :
  setEnd 3 (init false) = init false /\
  startTime (setEnd 2 (run [OSetStart 5] (init true))) = Some (Qmin 5 2).
Proof.
  split.
  - apply (proj1 (setEnd_spec false [] 3)). reflexivity.
  - apply (proj1 (proj2 (setEnd_spec true [OSetStart 5] 2)) 5). reflexivity.
Defined.

(** Claim C4: in a reachable state a poll tick seeks exactly when the loop
    is active and the position has reached the end bound, and then to the
    start bound (an active loop [[10, 20]] at position 21 seeks to 10);
    [clear()] resets the state to [{false, null, null}], leaves no timer
    registered, and no later tick seeks, whatever the positions. *)
Theorem poll_tick_spec (b : bool) (ops : list op) (pos : Q) :
  let c := run ops (init b) in
  ((isActive c = true /\ exists st en, startTime c = Some st /\ endTime c = Some en /\
      en <= pos /\ tick pos c = seekTo st c) \/
   (~ (isActive c = true /\ exists en, endTime c = Some en /\ en <= pos) /\
      tick pos c = c)) /\
  seeks (tick 21 (run [OSetLoop 10 20] (init b))) =
    seeks (run [OSetLoop 10 20] (init b)) ++ [10] /\
  (forall fires : list (nat * Q),
     let c0 := clear c in
     getState c0 = mkLoopState false None None /\ timers c0 = [] /\
     intervalId c0 = None /\
     seeks (run (map (fun '(i, p) => OFire i p) fires) c0) = seeks c0).
Proof.
  cbn zeta. set (c := run ops (init b)).
  destruct (reachable_inv c (run_reachable b ops)) as (Hact & Hen & Htm).
  split; [| split; [destruct b; reflexivity |]].
  - unfold tick. destruct (isActive c) eqn:Ha; cbn [negb].
    + destruct (endTime c) as [en |] eqn:He.
      * destruct (startTime c) as [st |] eqn:Hs;
          [| exfalso; exact (Hen ltac:(discriminate) eq_refl)].
        destruct (Qle_bool en pos) eqn:Hle.
        -- left. split; [reflexivity |]. exists st, en.
           repeat split; [apply Qle_bool_iff, Hle].
        -- right. split; [| reflexivity].
           intros [_ (en' & Hen' & Hle')]. injection Hen' as <-.
           apply Qle_bool_iff in Hle'. congruence.
      * right. split; [intros [_ (en' & Hen' & _)]; discriminate |].
        destruct (startTime c); reflexivity.
    + right. split; [intros [H _]; discriminate | reflexivity].
  - intros fires.
    assert (Hclr : getState (clear c) = mkLoopState false None None /\
                   timers (clear c) = [] /\ intervalId (clear c) = None).
    { unfold clear.
      destruct (notify_spec (set_active false (set_bounds None None (stopMonitoring c))))
        as (Hg & Hc & _).
      rewrite Hg. unfold core in Hc. injection Hc as _ _ _ H4 H5.
      rewrite H4, H5. unfold stopMonitoring.
      destruct (intervalId c) as [i |] eqn:Hi; rewrite ?Hi in Htm; cbn;
        rewrite ?Hi, ?Htm, ?remove_single; repeat split; reflexivity. }
    destruct Hclr as (Hg & Ht & Hi).
    split; [exact Hg | split; [exact Ht | split; [exact Hi |]]].
    rewrite fires_inactive; [reflexivity |].
    unfold getState in Hg. injection Hg as Hg _ _. exact Hg.
Qed.

Lemma poll_tick_spec_witness :
  seeks (run (map (fun '(i, p) => OFire i p) [(0%nat, 30)])
           (clear (run [OSetLoop 10 20] (init true)))) =
  seeks (clear (run [OSetLoop 10 20] (init true))).
Proof.
  exact (proj2 (proj2 (proj2
    ((proj2 (proj2 (poll_tick_spec true [OSetLoop 10 20] 0))) [(0%nat, 30)])))).
Defined.

(** Claim C9: [setStart], [setEnd] (when a start is set), [setLoop] and
    [clear] deliver exactly one snapshot to the registered callback, the
    state after the call; with no callback registered nothing is delivered;
    [setEnd] without a start delivers nothing. *)
Theorem notify_contract (c : t) (time x y : Q) :
  notes (setStart time c) =
    notes c ++ (if onStateChange c then [getState (setStart time c)] else []) /\
  (startTime c <> None ->
   notes (setEnd time c) =
     notes c ++ (if onStateChange c then [getState (setEnd time c)] else [])) /\
  (startTime c = None -> notes (setEnd time c) = notes c) /\
  notes (setLoop x y c) =
    notes c ++ (if onStateChange c then [getState (setLoop x y c)] else []) /\
  notes (clear c) =
    notes c ++ (if onStateChange c then [getState (clear c)] else []).
Proof.
  split; [| split; [| split; [| split]]].
  - unfold setStart.
    destruct (notify_spec (set_bounds (Some time) (endTime c) c))
      as (Hg & _ & _ & _ & Hn).
    rewrite Hn, Hg. reflexivity.
  - intros Hs. unfold setEnd.
    destruct (startTime c) as [st |] eqn:Hst; [| contradiction].
    destruct (activate_spec (set_bounds (Some (Qmin st time)) (Some (Qmax st time)) c)
                (Qmin st time) (Qmax st time) eq_refl eq_refl)
      as (_ & _ & _ & _ & _ & _ & _ & Hn).
    exact Hn.
  - intros Hs. unfold setEnd. rewrite Hs. reflexivity.
  - unfold setLoop.
    destruct (activate_spec (set_bounds (Some (Qmin x y)) (Some (Qmax x y)) c)
                (Qmin x y) (Qmax x y) eq_refl eq_refl)
      as (_ & _ & _ & _ & _ & _ & _ & Hn).
    exact Hn.
  - unfold clear.
    destruct (notify_spec (set_active false (set_bounds None None (stopMonitoring c))))
      as (Hg & _ & _ & _ & Hn).
    rewrite Hn, Hg. unfold stopMonitoring.
    destruct (intervalId c); reflexivity.
Qed.

Lemma notify_contract_witness :
  notes (setEnd 2 (setStart 5 (init true))) =
    [mkLoopState false (Some 5) None; mkLoopState true (Some 2) (Some 5)].
Proof.
  rewrite (proj1 (proj2 (notify_contract (setStart 5 (init true)) 2 0 0)));
    [reflexivity | discriminate].
Defined.

(** Claim C10: in every reachable state at most one timer is registered,
    the one recorded in [intervalId]; [startMonitoring] does nothing when a
    timer is recorded, so any run of [setEnd]/[setLoop] calls keeps that
    timer; [clear] and [destroy] leave no timer. *)
Theorem single_timer (b : bool) (ops : list op) :
  let c := run ops (init b) in
  timers c = match intervalId c with Some i => [i] | None => [] end /\
  (forall i, intervalId c = Some i ->
     startMonitoring c = c /\
     forall more, forallb is_activation more = true ->
       intervalId (run more c) = Some i /\ timers (run more c) = [i]) /\
  timers (clear c) = [] /\ intervalId (clear c) = None /\
  timers (destroy c) = [] /\ intervalId (destroy c) = None.
Proof.
  cbn zeta. set (c := run ops (init b)).
  destruct (reachable_inv c (run_reachable b ops)) as (_ & _ & Htm).
  assert (Hstop : timers (stopMonitoring c) = [] /\ intervalId (stopMonitoring c) = None).
  { unfold stopMonitoring. destruct (intervalId c) as [i |] eqn:Hi;
      rewrite ?Hi in Htm; cbn; rewrite ?Hi, ?Htm, ?remove_single; split; reflexivity. }
  destruct Hstop as [Hst Hsi].
  split; [exact Htm | split; [| split; [| split; [| split]]]].
  - intros i Hi. split.
    + unfold startMonitoring. rewrite Hi. reflexivity.
    + intros more Hmore. apply activations_keep_timer; [exact Hmore | exact Hi |].
      rewrite Htm, Hi. reflexivity.
  - unfold clear.
    destruct (notify_spec (set_active false (set_bounds None None (stopMonitoring c))))
      as (_ & Hc & _). unfold core in Hc. injection Hc as _ _ _ _ H5.
    rewrite H5. exact Hst.
  - unfold clear.
    destruct (notify_spec (set_active false (set_bounds None None (stopMonitoring c))))
      as (_ & Hc & _). unfold core in Hc. injection Hc as _ _ _ H4 _.
    rewrite H4. exact Hsi.
  - exact Hst.
  - exact Hsi.
Qed.

Lemma single_timer_witness :
  intervalId (run [OSetEnd 12; OSetLoop 1 2]
                (run [OSetLoop 10 20] (init true))) = Some 0%nat.
Proof.
  apply (proj2 (proj1 (proj2 (single_timer true [OSetLoop 10 20])) 0%nat eq_refl)
           [OSetEnd 12; OSetLoop 1 2] eq_refl).
Defined.

End LoopControllerSpec.

(** ** Proofs about the host video element *)

Module HostSpec.

(** [setPlaybackRate] with a player: the call succeeds, keeps the position
    and leaves a rate within [0.25, 2], the requested one when it is in that
    range, the nearest bound otherwise; without a player it fails. *)
Theorem setPlaybackRate_clamp (video : option Video) (rate : Q) :
  match video with
  | None => setPlaybackRate video rate = (false, None)
  | Some v =>
      exists v', setPlaybackRate video rate = (true, Some v') /\
        currentTime v' = currentTime v /\
        (1 # 4) <= getPlaybackRate (Some v') <= 2 /\
        ((1 # 4) <= rate <= 2 -> getPlaybackRate (Some v') == rate) /\
        (2 <= rate -> getPlaybackRate (Some v') == 2) /\
        (rate <= 1 # 4 -> getPlaybackRate (Some v') == 1 # 4)
  end.
Proof.
  destruct video as [v |]; [| reflexivity].
  eexists. split; [reflexivity |].
  cbn [getPlaybackRate playbackRate currentTime]. split; [reflexivity |].
  destruct (Q.min_spec 2 rate) as [[H1 Hm] | [H1 Hm]];
    destruct (Q.max_spec (1 # 4) (Qmin 2 rate)) as [[H2 HM] | [H2 HM]];
    rewrite HM; rewrite Hm in *; repeat split; intros; lra.
Qed.

End HostSpec.

(** ** Proofs about the keyboard shortcuts *)

Module KeyboardSpec.

Lemma matches_iff (event : KeyboardEvent) (shortcut : Shortcut) :
  matchesShortcut event shortcut = true <->
  toLowerCase (key event) = toLowerCase (sc_key shortcut) /\
  altKey event = alt shortcut /\ ctrlKey event = ctrl shortcut /\
  shiftKey event = shift shortcut.
Proof.
  unfold matchesShortcut, str_eqb.
  rewrite !andb_true_iff, !eqb_true_iff.
  destruct (list_eq_dec ascii_dec _ _); split; intros H; intuition (try discriminate).
Qed.

Lemma first_match_in (event : KeyboardEvent) (l : list (action * Shortcut))
    (a : action) :
  first_match event l = Some a ->
  exists shortcut, In (a, shortcut) l /\ matchesShortcut event shortcut = true.
Proof.
  induction l as [| [b sc] r IH]; cbn; [discriminate |].
  destruct (matchesShortcut event sc) eqn:Hm.
  - intros H. injection H as ->. exists sc. auto.
  - intros H. destruct (IH H) as (sc' & Hin & Hm'). exists sc'. auto.
Qed.

(** A key press runs the handler of [a] exactly when the shortcuts are
    enabled, the focus is not in a form field or an editable element, Alt is
    held while Ctrl and Shift are not, and the key, lower-cased, is the key
    of [a]; the Meta key is never looked at, so holding it changes nothing. *)
Theorem handleKeydown_spec (isEnabled : bool) (event : KeyboardEvent) (a : action) :
  (handleKeydown isEnabled event = Some a <->
   isEnabled = true /\ isInputElement (target event) = false /\
   altKey event = true /\ ctrlKey event = false /\ shiftKey event = false /\
   exists shortcut, In (a, shortcut) KEYBOARD_SHORTCUTS /\
     toLowerCase (key event) = sc_key shortcut) /\
  (forall m : bool,
   handleKeydown isEnabled
     (mkKeyboardEvent (key event) (altKey event) (ctrlKey event) (shiftKey event)
        m (target event))
   = handleKeydown isEnabled event).
Proof.
  split; [split |].
  - unfold handleKeydown. destruct isEnabled; [| discriminate].
    destruct (isInputElement (target event)) eqn:Hi; [discriminate |].
    intros H. apply first_match_in in H as (sc & Hin & Hm).
    apply matches_iff in Hm as (Hk & Ha & Hc & Hs).
    cbn in Hin; repeat destruct Hin as [Hin | Hin]; try contradiction;
      injection Hin as <- <-; cbn in Hk, Ha, Hc, Hs;
      (repeat split; [assumption .. |]);
      eexists; (split; [cbn; eauto 6 | exact Hk]).
  - intros (-> & Hi & Ha & Hc & Hs & sc & Hin & Hk).
    unfold handleKeydown. cbn [negb]. rewrite Hi.
    cbn in Hin; repeat destruct Hin as [Hin | Hin]; try contradiction;
      injection Hin as <- <-; cbn [sc_key] in Hk;
      cbn [KEYBOARD_SHORTCUTS first_match]; unfold matchesShortcut;
      rewrite Hk, Ha, Hc, Hs; reflexivity.
  - intros m. destruct event as [k al ct sh me tg]. reflexivity.
Qed.

Lemma handleKeydown_spec_witness :
  handleKeydown true
    (mkKeyboardEvent (s "S") true false false false (mkElement (s "DIV") false false))
  = Some saveSegment /\
  handleKeydown true
    (mkKeyboardEvent (s "S") true false false true (mkElement (s "DIV") false false))
  = Some saveSegment.
Proof.
  assert (H : handleKeydown true
    (mkKeyboardEvent (s "S") true false false false (mkElement (s "DIV") false false))
    = Some saveSegment).
  { apply (proj2 (proj1 (handleKeydown_spec true
      (mkKeyboardEvent (s "S") true false false false (mkElement (s "DIV") false false))
      saveSegment))).
    repeat split. exists (mkShortcut (s "s") true false false).
    split; [cbn; auto 6 | reflexivity]. }
  split; [exact H |].
  rewrite <- H.
  exact (proj2 (handleKeydown_spec true
    (mkKeyboardEvent (s "S") true false false false (mkElement (s "DIV") false false))
    saveSegment) true).
Defined.

End KeyboardSpec.

(** ** Further proofs about the loop controller *)

Module LoopControllerMore.

Import LoopController.

Ltac unfold_ops :=
  cbv [step setStart setEnd setLoop clear destroy tick activate
       notifyStateChange set_bounds set_active startMonitoring stopMonitoring
       seekTo getState].

(** Case analysis on every [match] of the goal, variables first. *)
Ltac case_all :=
  repeat (first
    [ match goal with |- context [match ?x with _ => _ end] => is_var x; destruct x end
    | match goal with |- context [match ?x with _ => _ end] => destruct x end ];
    cbn).

Lemma timer_active_step (c : t) (o : op) :
  timer_active c -> timer_active (step c o).
Proof.
  destruct c as [st en act iid sub tms nt sk nts]. unfold timer_active.
  destruct o; unfold_ops; cbn;
    repeat match goal with
           | |- context [match ?x with _ => _ end] => destruct x
           end; cbn; tauto.
Qed.

Lemma timer_active_run (ops : list op) : forall c,
  timer_active c -> timer_active (run ops c).
Proof.
  induction ops as [| o ops IH]; intros c Hc; [exact Hc |].
  apply IH, timer_active_step, Hc.
Qed.

Lemma reachable_timer_active (c : t) : reachable c -> timer_active c.
Proof.
  intros (b & ops & ->). apply timer_active_run. left. reflexivity.
Qed.

(** With no callback registered, no operation delivers a snapshot or
    registers one. *)
Lemma step_silent (c : t) (o : op) :
  onStateChange c = false ->
  onStateChange (step c o) = false /\ notes (step c o) = notes c.
Proof.
  destruct c as [st en act iid sub tms nt sk nts]. cbn. intros Hsub. subst sub.
  destruct o; unfold_ops; cbn; case_all; auto.
Qed.

Lemma run_silent (ops : list op) : forall c,
  onStateChange c = false -> notes (run ops c) = notes c.
Proof.
  induction ops as [| o ops IH]; intros c Hc; [reflexivity |].
  change (run (o :: ops) c) with (run ops (step c o)).
  destruct (step_silent c o Hc) as [H1 H2]. rewrite IH by exact H1. exact H2.
Qed.

(** In every reachable state, [isSettingStart] holds exactly when a start
    point is set and no end point is: the [!isActive] test never decides. *)
Theorem isSettingStart_reachable (c : t) :
  reachable c ->
  (isSettingStart c = true <-> startTime c <> None /\ endTime c = None).
Proof.
  intros Hr. destruct (LoopControllerSpec.reachable_inv c Hr) as (Hact & _ & _).
  unfold isSettingStart.
  destruct (startTime c) as [st |] eqn:Hs, (endTime c) as [en |] eqn:He;
    cbn; split; intros H; try discriminate; try (destruct H; congruence).
  - split; [discriminate | reflexivity].
  - destruct (isActive c) eqn:Ha; [| reflexivity].
    destruct (proj1 Hact eq_refl) as [_ H2]. contradiction.
Qed.

Lemma isSettingStart_reachable_witness :
  isSettingStart (run [OSetStart 3] (init true)) = true.
Proof.
  apply (proj2 (isSettingStart_reachable (run [OSetStart 3] (init true))
                  (LoopControllerSpec.run_reachable true [OSetStart 3]))).
  split; [discriminate | reflexivity].
Defined.

(** [destroy] stops the interval timer without changing the loop state, and
    afterwards no call or timer delivers a snapshot to the callback again. *)
Theorem destroy_silences (c : t) (ops : list op) :
  reachable c ->
  getState (destroy c) = getState c /\ intervalId (destroy c) = None /\
  timers (destroy c) = [] /\ notes (run ops (destroy c)) = notes c.
Proof.
  intros Hr. destruct (LoopControllerSpec.reachable_inv c Hr) as (_ & _ & Ht).
  rewrite (run_silent ops (destroy c)) by reflexivity.
  destruct c as [st en act iid sub tms nt sk nts]; cbn in Ht |- *.
  unfold destroy, stopMonitoring; cbn. destruct iid as [i |]; subst tms; cbn.
  - destruct (Nat.eq_dec i i) as [_ | Hn]; [repeat split | contradiction].
  - repeat split.
Qed.

Lemma destroy_silences_witness :
  notes (run [OSetLoop 1 2; OClear] (destroy (run [OSetStart 1] (init true))))
  = [mkLoopState false (Some 1) None].
Proof.
  exact (proj2 (proj2 (proj2 (destroy_silences (run [OSetStart 1] (init true))
           [OSetLoop 1 2; OClear] (LoopControllerSpec.run_reachable true [OSetStart 1]))))).
Defined.

End LoopControllerMore.

(** ** Proofs about reading the transcript *)

Module ExtractSpec.

(** Each segment read comes from the element at its [index] (counted from
    the first position [i]), with both children present. *)
Lemma extract_from_source (els : list SegmentElement) : forall i seg,
  In seg (extract_from i els) ->
  (i <= index seg)%nat /\
  exists ts tx,
    nth_error els (index seg - i) = Some (mkSegmentElement (Some ts) (Some tx)) /\
    startTime seg = inject_Z (parseTimestamp (trim_or ts (s "0:00"))) /\
    text seg = trim_or tx [].
Proof.
  induction els as [| [tse txe] r IH]; intros i seg Hin; [contradiction |].
  cbn in Hin. destruct tse as [ts |], txe as [tx |];
    try (destruct (IH (S i) seg Hin) as (Hle & ts' & tx' & Hn & Hst & Htx);
         split; [lia |]; exists ts', tx';
         replace (index seg - i)%nat with (S (index seg - S i)) by lia;
         auto).
  destruct Hin as [<- | Hin].
  - cbn. split; [lia |]. exists ts, tx. rewrite Nat.sub_diag. auto.
  - destruct (IH (S i) seg Hin) as (Hle & ts' & tx' & Hn & Hst & Htx).
    split; [lia |]. exists ts', tx'.
    replace (index seg - i)%nat with (S (index seg - S i)) by lia. auto.
Qed.

Lemma extract_from_sorted (els : list SegmentElement) : forall i,
  StronglySorted idx_lt (extract_from i els).
Proof.
  induction els as [| [tse txe] r IH]; intros i; cbn; [constructor |].
  destruct tse as [ts |], txe as [tx |]; try apply IH.
  constructor; [apply IH |]. apply Forall_forall. intros seg Hin.
  destruct (extract_from_source r (S i) seg Hin) as [Hle _].
  unfold idx_lt. cbn. lia.
Qed.

Lemma extract_from_length (els : list SegmentElement) : forall i,
  List.length (extract_from i els) = List.length (filter well_formed els).
Proof.
  induction els as [| [tse txe] r IH]; intros i; cbn; [reflexivity |].
  unfold well_formed at 1; cbn.
  destruct tse as [ts |], txe as [tx |]; cbn; rewrite ?IH; reflexivity.
Qed.

Lemma extract_from_positions (els : list SegmentElement) : forall i k seg,
  forallb well_formed els = true ->
  nth_error (extract_from i els) k = Some seg -> index seg = (i + k)%nat.
Proof.
  induction els as [| [tse txe] r IH]; intros i k seg Hwf Hk;
    [destruct k; discriminate |].
  cbn in Hwf. unfold well_formed at 1 in Hwf. cbn in Hwf.
  destruct tse as [ts |], txe as [tx |]; try discriminate. cbn in Hk.
  destruct k as [| k].
  - injection Hk as <-. cbn. lia.
  - rewrite (IH (S i) k seg Hwf Hk). lia.
Qed.

(** The segments read are in page order and there is one per well-formed
    element: each [index] is the position of an element that has both a
    timestamp and a text child, malformed elements being skipped. *)
Theorem extract_indices (els : list SegmentElement) :
  StronglySorted idx_lt (extractTranscriptSegments els) /\
  List.length (extractTranscriptSegments els) =
    List.length (filter well_formed els) /\
  (forall seg, In seg (extractTranscriptSegments els) ->
     exists e, nth_error els (index seg) = Some e /\ well_formed e = true).
Proof.
  unfold extractTranscriptSegments.
  split; [apply extract_from_sorted |]. split; [apply extract_from_length |].
  intros seg Hin.
  destruct (extract_from_source els 0 seg Hin) as (_ & ts & tx & Hn & _).
  rewrite Nat.sub_0_r in Hn. eexists. split; [exact Hn | reflexivity].
Qed.

(** A segment whose timestamp is missing text, or only white space, starts
    at 0 (the [|| '0:00'] default), and its text is the trimmed text of
    its element. *)
Theorem extract_empty_timestamp (els : list SegmentElement) (seg : TranscriptSegment)
    (ts : option str) (tx : option str) :
  In seg (extractTranscriptSegments els) ->
  nth_error els (index seg) = Some (mkSegmentElement (Some ts) (Some tx)) ->
  match ts with None => True | Some l => trim l = [] end ->
  startTime seg = 0 /\ text seg = trim_or tx [].
Proof.
  intros Hin Hn Hts.
  destruct (extract_from_source els 0 seg Hin) as (_ & ts' & tx' & Hn' & Hst & Htx).
  rewrite Nat.sub_0_r, Hn in Hn'. injection Hn' as <- <-.
  split; [| exact Htx]. rewrite Hst.
  destruct ts as [l |]; cbn; [rewrite Hts |]; reflexivity.
Qed.

Lemma extract_empty_timestamp_witness :
  startTime (mkSeg 1 0 (s "hi")) = 0 /\
  text (mkSeg 1 0 (s "hi")) = trim_or (Some (s " hi ")) [].
Proof.
  apply (extract_empty_timestamp
    [mkSegmentElement None None;
     mkSegmentElement (Some (Some (s "  "))) (Some (Some (s " hi ")))]
    (mkSeg 1 0 (s "hi")) (Some (s "  ")) (Some (s " hi "))).
  - cbn. left. reflexivity.
  - reflexivity.
  - reflexivity.
Defined.

(** When every element is well-formed, each segment's [index] is its
    position in the list read, so [segments[seg.index + 1]] is the segment
    after it. *)
Theorem extract_positions (els : list SegmentElement) (k : nat)
    (seg : TranscriptSegment) :
  forallb well_formed els = true ->
  nth_error (extractTranscriptSegments els) k = Some seg -> index seg = k.
Proof. intros Hwf Hk. exact (extract_from_positions els 0 k seg Hwf Hk). Qed.

Lemma extract_positions_witness :
  index (mkSeg 1 10 (s "b")) = 1%nat.
Proof.
  apply (extract_positions
    [mkSegmentElement (Some (Some (s "0:00"))) (Some (Some (s "a")));
     mkSegmentElement (Some (Some (s "0:10"))) (Some (Some (s "b")))]
    1 (mkSeg 1 10 (s "b"))); reflexivity.
Defined.

End ExtractSpec.

(** ** Proofs about the transcript panel *)

Module PanelSpec.

Module LC := LoopController.

Lemma valid_index {A} (l : list A) (i : nat) (x : A) :
  nth_error l i = Some x ->
  ((Z.of_nat i <? 0) || (Z.of_nat i >=? Z.of_nat (List.length l)))%Z = false.
Proof.
  intros H. assert (Hi : (i < List.length l)%nat)
    by (apply nth_error_Some; rewrite H; discriminate).
  apply orb_false_iff. split.
  - apply Z.ltb_ge. lia.
  - rewrite Z.geb_leb. apply Z.leb_gt. lia.
Qed.

(** [handleLoopClick] on a rendered index: the three branches. *)
Lemma click_cases (segments : list TranscriptSegment) (i : nat)
    (a : TranscriptSegment) (c : LC.t) :
  nth_error segments i = Some a ->
  Panel.handleLoopClick segments (Z.of_nat i) c =
  if negb (LC.isActive c) &&
     match LC.startTime c with None => true | Some _ => false end
  then LC.seekTo (startTime a) (LC.setStart (startTime a) c)
  else if LC.isSettingStart c then
    if match LC.startTime c with
       | Some st => Qeq_bool st (startTime a)
       | None => false
       end
    then LC.setLoop (startTime a)
           (match nth_error segments (S i) with
            | Some n => startTime n
            | None => startTime a + 5
            end) c
    else LC.setEnd (startTime a) c
  else LC.seekTo (startTime a) (LC.setStart (startTime a) (LC.clear c)).
Proof.
  intros Ha. unfold Panel.handleLoopClick.
  rewrite (valid_index segments i a Ha), Nat2Z.id, Ha. reflexivity.
Qed.

Lemma reachable_idle (c : LC.t) :
  LC.reachable c -> LC.getState c = mkLoopState false None None ->
  LC.intervalId c = None /\ LC.timers c = [].
Proof.
  intros Hr Hs.
  destruct (LoopControllerSpec.reachable_inv c Hr) as (_ & _ & Ht).
  destruct (LoopControllerMore.reachable_timer_active c Hr) as [Hi | Ha].
  - rewrite Hi in Ht. auto.
  - unfold LC.getState in Hs. rewrite Ha in Hs. discriminate.
Qed.

Lemma sorted_next (segments : list TranscriptSegment) : forall i a b,
  Sorted seg_lt segments ->
  nth_error segments i = Some a -> nth_error segments (S i) = Some b ->
  startTime a < startTime b.
Proof.
  induction segments as [| x r IH]; intros i a b Hs Ha Hb; [destruct i; discriminate |].
  apply Sorted_inv in Hs as [Hs Hh]. destruct i as [| i].
  - cbn in Ha, Hb. injection Ha as <-. destruct r as [| y r]; [discriminate |].
    cbn in Hb. injection Hb as <-. apply HdRel_inv in Hh. exact Hh.
  - exact (IH i a b Hs Ha Hb).
Qed.

(** From an idle controller, clicking the loop buttons of two segments with
    different start times seeks to the first, then loops between the earlier
    and the later start, with one live interval timer. *)
Theorem loop_click_two_segments (segments : list TranscriptSegment) (i j : nat)
    (a b : TranscriptSegment) (c : LC.t) :
  LC.reachable c -> LC.getState c = mkLoopState false None None ->
  nth_error segments i = Some a -> nth_error segments j = Some b ->
  ~ startTime a == startTime b ->
  let c' := Panel.handleLoopClick segments (Z.of_nat j)
              (Panel.handleLoopClick segments (Z.of_nat i) c) in
  LC.getState c' =
    mkLoopState true (Some (Qmin (startTime a) (startTime b)))
                     (Some (Qmax (startTime a) (startTime b))) /\
  LC.timers c' = [LC.nextTimer c] /\
  LC.seeks c' = LC.seeks c ++ [startTime a; Qmin (startTime a) (startTime b)].
Proof.
  intros Hr Hidle Ha Hb Hne. cbv zeta.
  destruct (reachable_idle c Hr Hidle) as [Hi Ht].
  assert (Hq : Qeq_bool (startTime a) (startTime b) = false).
  { destruct (Qeq_bool _ _) eqn:E; [| reflexivity].
    apply Qeq_bool_iff in E. contradiction. }
  destruct c as [st en act iid sub tms nt sk nts].
  unfold LC.getState in Hidle; cbn in Hidle, Hi, Ht.
  injection Hidle as -> -> ->. subst iid tms.
  rewrite (click_cases segments i a _ Ha). cbn [negb andb LC.isActive LC.startTime].
  rewrite (click_cases segments j b _ Hb).
  destruct sub; cbn -[Qeq_bool Qmin Qmax]; rewrite Hq; cbn -[Qmin Qmax];
    repeat split; rewrite <- app_assoc; reflexivity.
Qed.

Lemma loop_click_two_segments_witness :
  let c' := Panel.handleLoopClick sample_segments 0
              (Panel.handleLoopClick sample_segments 2 (LC.init true)) in
  LC.getState c' = mkLoopState true (Some (Qmin 20 0)) (Some (Qmax 20 0)) /\
  LC.timers c' = [0%nat] /\ LC.seeks c' = [20; Qmin 20 0].
Proof.
  exact (loop_click_two_segments sample_segments 2 0 (seg_q 20 "c" 2)
           (seg_q 0 "a" 0) (LC.init true)
           (LoopControllerSpec.run_reachable true []) eq_refl eq_refl eq_refl
           ltac:(cbn; discriminate)).
Defined.

Lemma Qmin_max_lt (x y : Q) : x < y -> Qmin x y = x /\ Qmax x y = y.
Proof.
  intros H. unfold Qmin, Qmax, GenericMinMax.gmin, GenericMinMax.gmax.
  rewrite (proj1 (Qlt_alt x y) H). split; reflexivity.
Qed.

(** From an idle controller, clicking the loop button of the same segment
    twice loops over that segment alone: from its start to the next
    segment's start, or 5 seconds when it is the last one. *)
Theorem loop_click_same_segment (segments : list TranscriptSegment) (i : nat)
    (a : TranscriptSegment) (c : LC.t) :
  Sorted seg_lt segments ->
  LC.reachable c -> LC.getState c = mkLoopState false None None ->
  nth_error segments i = Some a ->
  let e := match nth_error segments (S i) with
           | Some n => startTime n
           | None => startTime a + 5
           end in
  let c' := Panel.handleLoopClick segments (Z.of_nat i)
              (Panel.handleLoopClick segments (Z.of_nat i) c) in
  LC.getState c' = mkLoopState true (Some (startTime a)) (Some e) /\
  LC.timers c' = [LC.nextTimer c] /\
  LC.seeks c' = LC.seeks c ++ [startTime a; startTime a].
Proof.
  intros Hs Hr Hidle Ha. cbv zeta.
  destruct (reachable_idle c Hr Hidle) as [Hi Ht].
  assert (Hq : Qeq_bool (startTime a) (startTime a) = true)
    by (apply Qeq_bool_iff; apply Qeq_refl).
  assert (Hlt : startTime a < match nth_error segments (S i) with
                              | Some n => startTime n
                              | None => startTime a + 5
                              end).
  { destruct (nth_error segments (S i)) as [n |] eqn:Hn.
    - exact (sorted_next segments i a n Hs Ha Hn).
    - lra. }
  destruct (Qmin_max_lt _ _ Hlt) as [Hmin Hmax].
  rewrite (click_cases segments i a c Ha).
  rewrite (click_cases segments i a _ Ha).
  destruct (nth_error segments (S i)) as [n |];
  destruct c as [st en act iid sub tms nt sk nts];
  unfold LC.getState in Hidle; cbn in Hidle, Hi, Ht;
  injection Hidle as -> -> ->; subst iid tms;
  destruct sub; cbn -[Qeq_bool Qmin Qmax]; rewrite Hq;
    cbn -[Qmin Qmax]; rewrite Hmin, Hmax;
    repeat split; rewrite <- app_assoc; reflexivity.
Qed.

Lemma loop_click_same_segment_witness :
  let c' := Panel.handleLoopClick sample_segments 1
              (Panel.handleLoopClick sample_segments 1 (LC.init false)) in
  LC.getState c' = mkLoopState true (Some 10) (Some 20) /\
  LC.timers c' = [0%nat] /\ LC.seeks c' = [10; 10].
Proof.
  assert (Hs : Sorted seg_lt sample_segments).
  { repeat constructor; unfold seg_lt; cbn; reflexivity. }
  exact (loop_click_same_segment sample_segments 1 (seg_q 10 "b" 1)
           (LC.init false) Hs (LoopControllerSpec.run_reachable false [])
           eq_refl eq_refl).
Defined.

(** Clicking a loop button while a loop is active stops it: the interval
    timer is cleared, the clicked segment's start becomes the new start
    point, with no end point, and the video seeks to it. *)
Theorem loop_click_active (segments : list TranscriptSegment) (i : nat)
    (a : TranscriptSegment) (c : LC.t) :
  LC.reachable c -> LC.isActive c = true -> nth_error segments i = Some a ->
  let c' := Panel.handleLoopClick segments (Z.of_nat i) c in
  LC.getState c' = mkLoopState false (Some (startTime a)) None /\
  LC.intervalId c' = None /\ LC.timers c' = [] /\
  LC.seeks c' = LC.seeks c ++ [startTime a].
Proof.
  intros Hr Hact Ha. cbv zeta.
  destruct (LoopControllerSpec.reachable_inv c Hr) as (_ & _ & Ht).
  rewrite (click_cases segments i a c Ha).
  destruct c as [st en act iid sub tms nt sk nts]; cbn in Hact, Ht |- *.
  subst act tms. cbn.
  destruct st, en; cbn; destruct iid as [k |]; cbn; destruct sub; cbn;
    repeat split;
    try (destruct (Nat.eq_dec k k); [reflexivity | contradiction]).
Qed.

Lemma loop_click_active_witness :
  let c' := Panel.handleLoopClick sample_segments 2
              (LoopController.run [LoopController.OSetLoop 0 10] (LC.init true)) in
  LC.getState c' = mkLoopState false (Some 20) None /\
  LC.intervalId c' = None /\ LC.timers c' = [] /\ LC.seeks c' = [0; 20].
Proof.
  exact (loop_click_active sample_segments 2 (seg_q 20 "c" 2)
           (LoopController.run [LoopController.OSetLoop 0 10] (LC.init true))
           (LoopControllerSpec.run_reachable true [LoopController.OSetLoop 0 10])
           eq_refl eq_refl).
Defined.

(** The loop-start shortcut does not clear an active loop: it moves the
    start point to the segment under the playhead and keeps the end point,
    the active flag and the interval timer.  With no segment there, nothing
    changes. *)
Theorem loop_start_shortcut (segments : list TranscriptSegment) (pos : Q)
    (c : LC.t) :
  let c' := Panel.handleLoopStartShortcut segments pos c in
  match findSegmentAtTime segments pos with
  | None => c' = c
  | Some seg =>
      LC.getState c' =
        mkLoopState (LC.isActive c) (Some (startTime seg)) (LC.endTime c) /\
      LC.intervalId c' = LC.intervalId c /\ LC.timers c' = LC.timers c /\
      LC.seeks c' = LC.seeks c
  end.
Proof.
  cbv zeta. unfold Panel.handleLoopStartShortcut.
  destruct (findSegmentAtTime segments pos) as [seg |]; [| reflexivity].
  destruct c as [st en act iid sub tms nt sk nts].
  unfold LC.setStart, LC.notifyStateChange; cbn. destruct sub; repeat split.
Qed.

(** The save button: for any transcript and loop state, an index outside
    the list, or a page without video information, saves nothing.  With no
    active loop it proposes the segment's own text, from its start to the
    next segment's start (start + 5 for the last segment); when start times
    ascend and the start is at most 2^52 seconds (so that start + 5 is exact
    in double precision too), that range is non-empty. *)
Theorem save_click_single_segment (segments : list TranscriptSegment) (i : nat)
    (a : TranscriptSegment) (ls : LoopState) :
  (forall k hasVideoInfo ls',
     (k < 0 \/ Z.of_nat (List.length segments) <= k)%Z ->
     Panel.handleSaveClick segments k hasVideoInfo ls' = None) /\
  (forall k ls', Panel.handleSaveClick segments k false ls' = None) /\
  (nth_error segments i = Some a -> ls_isActive ls = false ->
   exists e,
     Panel.handleSaveClick segments (Z.of_nat i) true ls =
       Some (startTime a, e, text a) /\
     (forall n, nth_error segments (S i) = Some n -> e = startTime n) /\
     (nth_error segments (S i) = None -> e = startTime a + 5) /\
     (Sorted seg_lt segments -> startTime a <= inject_Z (2 ^ 52) ->
      startTime a < e)).
Proof.
  split; [| split].
  - intros k hv ls' Hk. unfold Panel.handleSaveClick.
    replace ((k <? 0) || (k >=? Z.of_nat (List.length segments)))%Z with true;
      [reflexivity |].
    symmetry. apply orb_true_iff. destruct Hk as [Hk | Hk]; [left | right].
    + apply Z.ltb_lt. exact Hk.
    + rewrite Z.geb_leb. apply Z.leb_le. exact Hk.
  - intros k ls'. unfold Panel.handleSaveClick.
    destruct (_ || _); [reflexivity |].
    destruct (nth_error segments (Z.to_nat k)); reflexivity.
  - intros Ha Hls. unfold Panel.handleSaveClick.
    rewrite (valid_index segments i a Ha), Nat2Z.id, Ha. cbn [negb].
    destruct ls as [act st en]; cbn in Hls; subst act.
    destruct (nth_error segments (S i)) as [n |] eqn:Hn.
    + exists (startTime n). split; [reflexivity |]. split; [| split].
      * intros n' Hn'. injection Hn' as <-. reflexivity.
      * discriminate.
      * intros Hs _. exact (sorted_next segments i a n Hs Ha Hn).
    + exists (startTime a + 5). split; [reflexivity |]. split; [| split].
      * discriminate.
      * reflexivity.
      * intros _ _. lra.
Qed.

Lemma save_click_single_segment_witness :
  Panel.handleSaveClick sample_segments 1 true (mkLoopState false None None) =
    Some (10, 20, s "b") /\ (10 < 20)%Q /\
  Panel.handleSaveClick sample_segments 2 true (mkLoopState false None None) =
    Some (20, 25, s "c") /\ (20 < 25)%Q /\
  Panel.handleSaveClick sample_segments 3 true (mkLoopState true None None) = None /\
  Panel.handleSaveClick sample_segments 0 false (mkLoopState false None None) = None.
Proof.
  assert (Hs : Sorted seg_lt sample_segments).
  { repeat constructor; unfold seg_lt; cbn; reflexivity. }
  destruct (save_click_single_segment sample_segments 1 (seg_q 10 "b" 1)
              (mkLoopState false None None))
    as (Hout & Hnov & Hin).
  destruct (Hin eq_refl eq_refl) as (e & He & Hnext & _ & Hlt).
  rewrite (Hnext (seg_q 20 "c" 2) eq_refl) in He, Hlt.
  destruct (save_click_single_segment sample_segments 2 (seg_q 20 "c" 2)
              (mkLoopState false None None))
    as (_ & _ & Hin2).
  destruct (Hin2 eq_refl eq_refl) as (e2 & He2 & _ & Hlast & Hlt2).
  rewrite (Hlast eq_refl) in He2, Hlt2.
  split; [exact He |]. split; [apply Hlt; [exact Hs | vm_compute; discriminate] |].
  split; [exact He2 |]. split; [apply Hlt2; [exact Hs | vm_compute; discriminate] |].
  split.
  - apply Hout. right. vm_compute. discriminate.
  - apply Hnov.
Defined.

(** On a transcript read from well-formed elements, whatever the save
    shortcut saves is the segment under the playhead (the one
    [findSegmentAtTime] returns), with the same range and text as that
    segment's save button gives when no loop is active. *)
Theorem save_shortcut_matches_button (els : list SegmentElement)
    (savedStarts : list Q) (pos : Q) (r : Q * Q * str) (ls : LoopState) :
  forallb well_formed els = true -> ls_isActive ls = false ->
  Panel.handleSaveShortcut (extractTranscriptSegments els) savedStarts true pos
    = Some r ->
  exists i cur,
    findSegmentAtTime (extractTranscriptSegments els) pos = Some cur /\
    nth_error (extractTranscriptSegments els) i = Some cur /\
    Panel.handleSaveClick (extractTranscriptSegments els) (Z.of_nat i)
      true ls = Some r.
Proof.
  intros Hwf Hls H. unfold Panel.handleSaveShortcut in H.
  destruct (findSegmentAtTime _ pos) as [cur |] eqn:Hf; [| discriminate].
  destruct (find_some_slot _ _ _ Hf) as (i & Hi & _).
  pose proof (ExtractSpec.extract_from_positions els 0 i cur Hwf Hi) as Hidx.
  cbn in Hidx. rewrite Hidx in H.
  destruct (existsb _ savedStarts); [discriminate |]. cbn in H.
  exists i, cur. split; [reflexivity |]. split; [exact Hi |].
  unfold Panel.handleSaveClick.
  rewrite (valid_index _ i cur Hi), Nat2Z.id, Hi. cbn [negb].
  destruct ls as [act st en]; cbn in Hls |- *; subst act. exact H.
Qed.

Lemma save_shortcut_matches_button_witness :
  exists i cur,
    findSegmentAtTime
      (extractTranscriptSegments
         [mkSegmentElement (Some (Some (s "0:00"))) (Some (Some (s "a")));
          mkSegmentElement (Some (Some (s "0:10"))) (Some (Some (s "b")))]) 12
      = Some cur /\
    nth_error
      (extractTranscriptSegments
         [mkSegmentElement (Some (Some (s "0:00"))) (Some (Some (s "a")));
          mkSegmentElement (Some (Some (s "0:10"))) (Some (Some (s "b")))]) i
      = Some cur /\
    Panel.handleSaveClick
      (extractTranscriptSegments
         [mkSegmentElement (Some (Some (s "0:00"))) (Some (Some (s "a")));
          mkSegmentElement (Some (Some (s "0:10"))) (Some (Some (s "b")))])
      (Z.of_nat i) true (mkLoopState false None None) = Some (10, 15, s "b").
Proof.
  apply (save_shortcut_matches_button
    [mkSegmentElement (Some (Some (s "0:00"))) (Some (Some (s "a")));
     mkSegmentElement (Some (Some (s "0:10"))) (Some (Some (s "b")))]
    [] 12 (10, 15, s "b") (mkLoopState false None None));
    reflexivity.
Defined.

Lemma count_true_cons (b : bool) (l : list bool) :
  Panel.count_true (b :: l) = if b then S (Panel.count_true l) else Panel.count_true l.
Proof. destruct b; reflexivity. Qed.

Lemma no_marks (act : bool) (o1 o2 : option Q) (segments : list TranscriptSegment) :
  o1 = None \/ o2 = None ->
  Panel.segmentsWithStartClass (mkLoopState act o1 o2) segments = 0%nat /\
  Panel.segmentsWithEndClass (mkLoopState act o1 o2) segments = 0%nat.
Proof.
  intros Ho. unfold Panel.segmentsWithStartClass, Panel.segmentsWithEndClass.
  induction segments as [| x r IH]; [split; reflexivity |].
  cbn [Panel.renderSegments_flags map ls_startTime ls_endTime].
  destruct Ho as [-> | ->]; [| destruct o1]; cbn [fst snd];
    rewrite !count_true_cons; exact IH.
Qed.

Lemma start_marks_none (act : bool) (st en : Q) (r : list TranscriptSegment) :
  (forall y, In y r -> st < startTime y) ->
  Panel.segmentsWithStartClass (mkLoopState act (Some st) (Some en)) r = 0%nat.
Proof.
  unfold Panel.segmentsWithStartClass.
  induction r as [| y r IH]; intros H; [reflexivity |].
  cbn [Panel.renderSegments_flags map ls_startTime ls_endTime fst snd].
  rewrite count_true_cons.
  destruct (Qeq_bool (startTime y) st) eqn:E.
  - apply Qeq_bool_iff in E. specialize (H y (or_introl eq_refl)). lra.
  - apply IH. intros z Hz. apply H. right. exact Hz.
Qed.

Lemma end_marks_none (act : bool) (st en : Q) (r : list TranscriptSegment) :
  (forall y, In y r -> en <= startTime y) ->
  Panel.segmentsWithEndClass (mkLoopState act (Some st) (Some en)) r = 0%nat.
Proof.
  unfold Panel.segmentsWithEndClass.
  induction r as [| y r IH]; intros H; [reflexivity |].
  cbn [Panel.renderSegments_flags map ls_startTime ls_endTime fst snd].
  rewrite count_true_cons.
  destruct (Qltb (startTime y) en) eqn:E.
  - apply Qltb_iff in E. specialize (H y (or_introl eq_refl)). lra.
  - rewrite andb_false_r. apply IH. intros z Hz. apply H. right. exact Hz.
Qed.

Lemma sorted_tail_above (x : TranscriptSegment) (r : list TranscriptSegment) :
  StronglySorted seg_lt (x :: r) -> forall y, In y r -> startTime x < startTime y.
Proof.
  intros Hs y Hy. apply StronglySorted_inv in Hs as [_ Hf].
  rewrite Forall_forall in Hf. exact (Hf y Hy).
Qed.

(** On segments with ascending start times, [renderSegments] marks at most
    one segment as the loop start and at most one as the loop end. *)
Theorem render_marks_unique (ls : LoopState) (segments : list TranscriptSegment) :
  Sorted seg_lt segments ->
  (Panel.segmentsWithStartClass ls segments <= 1)%nat /\
  (Panel.segmentsWithEndClass ls segments <= 1)%nat.
Proof.
  intros Hs. apply Sorted_StronglySorted in Hs; [| exact seg_lt_trans].
  destruct ls as [act [st |] [en |]];
    [| destruct (no_marks act (Some st) None segments (or_intror eq_refl)) as [-> ->]
     | destruct (no_marks act None (Some en) segments (or_introl eq_refl)) as [-> ->]
     | destruct (no_marks act None None segments (or_introl eq_refl)) as [-> ->]];
    [| lia ..].
  induction segments as [| x r IH]; [cbn; lia |].
  pose proof (sorted_tail_above x r Hs) as Habove.
  apply StronglySorted_inv in Hs as [Hr _]. specialize (IH Hr) as [IH1 IH2].
  unfold Panel.segmentsWithStartClass, Panel.segmentsWithEndClass in *.
  cbn [Panel.renderSegments_flags map ls_startTime ls_endTime fst snd].
  rewrite !count_true_cons. split.
  - destruct (Qeq_bool (startTime x) st) eqn:E; [| exact IH1].
    apply Qeq_bool_iff in E.
    assert (H0 := start_marks_none act st en r).
    unfold Panel.segmentsWithStartClass in H0. rewrite H0; [lia |].
    intros y Hy. specialize (Habove y Hy). lra.
  - destruct (Qltb en _ && Qltb (startTime x) en) eqn:E; [| exact IH2].
    apply andb_true_iff in E as [E1 E2]. apply Qltb_iff in E1.
    destruct r as [| y0 r']; [cbn; lia |].
    assert (H0 := end_marks_none act st en (y0 :: r')).
    unfold Panel.segmentsWithEndClass in H0. rewrite H0; [lia |].
    intros y Hy. destruct Hy as [<- | Hy]; [lra |].
    apply StronglySorted_inv in Hr as [_ Hf]. rewrite Forall_forall in Hf.
    specialize (Hf y Hy). unfold seg_lt in Hf. lra.
Qed.

Lemma render_marks_unique_witness :
  (Panel.segmentsWithStartClass (mkLoopState true (Some 10%Q) (Some 20%Q))
     sample_segments <= 1)%nat /\
  (Panel.segmentsWithEndClass (mkLoopState true (Some 10%Q) (Some 20%Q))
     sample_segments <= 1)%nat.
Proof.
  apply render_marks_unique.
  repeat constructor; unfold seg_lt; cbn; reflexivity.
Defined.

(** On segments with ascending start times, when the loop ends exactly at
    the start of a segment, no segment gets the loop-end mark. *)
Theorem render_no_end_mark (ls : LoopState) (segments : list TranscriptSegment)
    (en : Q) (x : TranscriptSegment) :
  Sorted seg_lt segments -> ls_endTime ls = Some en ->
  In x segments -> startTime x == en ->
  Panel.segmentsWithEndClass ls segments = 0%nat.
Proof.
  intros Hs Hen Hx Hxe. apply Sorted_StronglySorted in Hs; [| exact seg_lt_trans].
  destruct ls as [act [st |] en']; cbn in Hen; subst en';
    [| exact (proj2 (no_marks act None (Some en) segments (or_introl eq_refl)))].
  induction segments as [| y r IH]; [contradiction |].
  pose proof (sorted_tail_above y r Hs) as Habove.
  apply StronglySorted_inv in Hs as [Hr _].
  unfold Panel.segmentsWithEndClass in *.
  cbn [Panel.renderSegments_flags map ls_startTime ls_endTime fst snd].
  rewrite count_true_cons. destruct Hx as [<- | Hx].
  - destruct (Qltb (startTime y) en) eqn:E.
    + apply Qltb_iff in E. lra.
    + rewrite andb_false_r. apply (end_marks_none act st en r).
      intros z Hz. specialize (Habove z Hz). lra.
  - assert (Hle : match r with
                  | nextSegment :: _ => startTime nextSegment
                  | [] => startTime y + 5
                  end <= en).
    { destruct r as [| y0 r']; [contradiction |].
      destruct Hx as [<- | Hx]; [lra |].
      apply StronglySorted_inv in Hr as [_ Hf]. rewrite Forall_forall in Hf.
      specialize (Hf x Hx). unfold seg_lt in Hf. lra. }
    destruct (Qltb en _) eqn:E.
    + apply Qltb_iff in E. lra.
    + exact (IH Hr Hx).
Qed.

Lemma render_no_end_mark_witness :
  Panel.segmentsWithEndClass (mkLoopState true (Some 10) (Some 20))
    sample_segments = 0%nat.
Proof.
  apply (render_no_end_mark (mkLoopState true (Some 10) (Some 20))
           sample_segments 20 (seg_q 20 "c" 2)).
  - repeat constructor; unfold seg_lt; cbn; reflexivity.
  - reflexivity.
  - cbn. auto.
  - reflexivity.
Defined.

Lemma range_filter_empty (segments : list TranscriptSegment) (st en : Q) :
  en <= st ->
  filter (fun seg => Qle_bool st (startTime seg) && Qltb (startTime seg) en)
    segments = [].
Proof.
  intros Hle. induction segments as [| x r IH]; [reflexivity |].
  cbn [filter]. rewrite IH.
  destruct (Qle_bool st (startTime x)) eqn:E1, (Qltb (startTime x) en) eqn:E2;
    try reflexivity.
  apply Qle_bool_iff in E1. apply Qltb_iff in E2. lra.
Qed.

(** [getTextForRange] on a range whose end is not after its start is the
    empty string, whatever the segments. *)
Theorem getTextForRange_empty (segments : list TranscriptSegment) (st en : Q) :
  en <= st -> getTextForRange segments st en = [].
Proof.
  intros Hle. unfold getTextForRange. rewrite (range_filter_empty segments st en Hle).
  reflexivity.
Qed.

Lemma getTextForRange_empty_witness :
  getTextForRange sample_segments 10 10 = [].
Proof. apply getTextForRange_empty. lra. Defined.

(** When the loop-start shortcut moves the start of an active loop to a
    segment at or after the loop's end, the save button then proposes that
    inverted range with an empty text. *)
Theorem save_after_start_shortcut (segments : list TranscriptSegment) (pos : Q)
    (seg a : TranscriptSegment) (i : nat) (c : LC.t) (en : Q) :
  LC.isActive c = true -> LC.endTime c = Some en ->
  findSegmentAtTime segments pos = Some seg -> en <= startTime seg ->
  nth_error segments i = Some a ->
  Panel.handleSaveClick segments (Z.of_nat i) true
    (LC.getState (Panel.handleLoopStartShortcut segments pos c)) =
  Some (startTime seg, en, []).
Proof.
  intros Hact Hen Hf Hle Ha.
  unfold Panel.handleLoopStartShortcut. rewrite Hf.
  unfold Panel.handleSaveClick.
  rewrite (valid_index segments i a Ha), Nat2Z.id, Ha. cbn [negb].
  destruct c as [st0 en0 act iid sub tms nt sk nts]; cbn in Hact, Hen.
  subst act en0.
  unfold LC.setStart, LC.notifyStateChange, LC.getState;
    destruct sub; cbn [LC.startTime LC.endTime LC.isActive LC.set_bounds
                       ls_isActive ls_startTime ls_endTime LC.onStateChange];
    unfold getTextForRange; rewrite (range_filter_empty segments _ _ Hle);
    reflexivity.
Qed.

Lemma save_after_start_shortcut_witness :
  Panel.handleSaveClick sample_segments 0 true
    (LC.getState (Panel.handleLoopStartShortcut sample_segments 25
       (LoopController.run [LoopController.OSetLoop 0 10] (LC.init true)))) =
  Some (20, 10, []).
Proof.
  exact (save_after_start_shortcut sample_segments 25 (seg_q 20 "c" 2)
           (seg_q 0 "a" 0) 0
           (LoopController.run [LoopController.OSetLoop 0 10] (LC.init true)) 10
           eq_refl eq_refl eq_refl ltac:(cbn; lra) eq_refl).
Defined.

End PanelSpec.

(** ** Further proofs about timestamps *)

Module TimestampMore.

(** Formatting a non-negative playback time below [2^53] seconds, possibly
    fractional, and parsing the result back gives its whole number of
    seconds. *)
Theorem parse_format_floor (q : Q) :
  0 <= q -> q < inject_Z (2 ^ 53) -> parseTimestamp (formatTimestamp q) = Qfloor q.
Proof.
  intros Hq Hb.
  assert (Hf : formatTimestamp q = formatTimestamp (inject_Z (Qfloor q)))
    by (unfold formatTimestamp; rewrite Qfloor_Z; reflexivity).
  rewrite Hf. apply parse_format_safe. split.
  - exact (Qfloor_resp_le 0 q Hq).
  - rewrite Zlt_Qlt. exact (Qle_lt_trans _ _ _ (Qfloor_le q) Hb).
Qed.

Lemma parse_format_floor_witness :
  parseTimestamp (formatTimestamp (7501 # 2)) = 3750%Z.
Proof.
  apply (parse_format_floor (7501 # 2)); [lra |].
  apply Qltb_iff. vm_compute. reflexivity.
Defined.

End TimestampMore.
